(** * prerender-deno: the snapshot middleware, embedded and verified

    A shallow embedding of the [Prerenderer] class (request classifier,
    upstream URL builder, retriever and orchestrator) together with the
    two catalogs of [constants.ts].

    Conventions of the embedding
    - a JavaScript string is a [string] of bytes; [toLowerCase] is the ASCII
      one (the catalogs and the header names the code handles are ASCII);
    - [null]/[undefined] of a [string | null] is [None];
    - a thrown value is an [Error] with its message; fallible code lives in
      the [result] monad, effectful code in the trace monad [M];
    - JavaScript objects that the code mutates through references live in an
      explicit [heap], so that aliasing is visible;
    - a number of the option bag is an integer. *)

From stdpp Require Import base option list gmap strings.
From Stdlib Require Import String Ascii ZArith Bool Lia.

Local Open Scope string_scope.

(** ** Thrown values and fallible computations *)

Record Error := mkError { err_name : string; message : string }.

Inductive result (A : Type) : Type :=
| Ok (a : A)
| Throw (e : Error).
Arguments Ok {A} a.
Arguments Throw {A} e.

Global Instance result_ret : MRet result := fun _ a => Ok a.
Global Instance result_bind : MBind result := fun _ _ k r =>
  match r with
  | Ok a => k a
  | Throw e => Throw e
  end.

Global Instance result_fmap : FMap result := fun _ _ f r =>
  match r with
  | Ok a => Ok (f a)
  | Throw e => Throw e
  end.

Definition TypeError (msg : string) : Error := mkError "TypeError" msg.
Definition SyntaxError (msg : string) : Error := mkError "SyntaxError" msg.

(** ** JavaScript strings *)

Module JsString.

Definition lower_ascii (c : ascii) : ascii :=
  let n := nat_of_ascii c in
  if (65 <=? n)%nat && (n <=? 90)%nat then ascii_of_nat (n + 32) else c.

Fixpoint toLowerCase (s : string) : string :=
  match s with
  | EmptyString => EmptyString
  | String c s' => String (lower_ascii c) (toLowerCase s')
  end.

(** [s.indexOf(x) !== -1] *)
Definition includes (x s : string) : bool :=
  match x with
  | EmptyString => true
  | _ => match String.index 0 x s with Some _ => true | None => false end
  end.

(** [s.indexOf(x, from) !== -1] for a non-empty [x]; a negative [from]
    is clamped to 0, which is what the truncated subtraction gives. *)
Definition includes_from (x : string) (from : nat) (s : string) : bool :=
  match String.index from x s with Some _ => true | None => false end.

Definition endsWith (s suffix : string) : bool :=
  String.prefix (String.rev suffix) (String.rev s).

(** Truthiness of a [string | null | undefined]. *)
Definition truthy (o : option string) : bool :=
  match o with
  | None => false
  | Some EmptyString => false
  | Some _ => true
  end.

(** Truthiness of a plain [string]. *)
Definition nonempty (s : string) : bool :=
  match s with EmptyString => false | _ => true end.

(** [`${o}`] *)
Definition interpolate (o : option string) : string :=
  match o with Some s => s | None => "null" end.

(** Split at the first occurrence of [c]: the part before, and the part
    after when [c] occurs. *)
Fixpoint cut (c : ascii) (s : string) : string * option string :=
  match s with
  | EmptyString => (EmptyString, None)
  | String d s' =>
      if Ascii.eqb c d then (EmptyString, Some s')
      else let '(a, b) := cut c s' in (String d a, b)
  end.

Fixpoint split_fuel (n : nat) (c : ascii) (s : string) : list string :=
  match n with
  | O => [s]
  | S n' =>
      match cut c s with
      | (a, None) => [a]
      | (a, Some b) => a :: split_fuel n' c b
      end
  end.

(** [s.split(c)] *)
Definition split (c : ascii) (s : string) : list string :=
  split_fuel (String.length s) c s.

Fixpoint join (sep : string) (l : list string) : string :=
  match l with
  | [] => EmptyString
  | [x] => x
  | x :: l' => x ++ sep ++ join sep l'
  end.

Fixpoint forallb_string (p : ascii → bool) (s : string) : bool :=
  match s with
  | EmptyString => true
  | String c s' => p c && forallb_string p s'
  end.

End JsString.

(** ** The platform's [Headers] *)

Module Headers.

(** The header list, in arrival order, names as received. *)
Definition t := list (string * string).

(** An HTTP token code point. *)
Definition is_tchar (c : ascii) : bool :=
  let n := nat_of_ascii c in
  ((48 <=? n)%nat && (n <=? 57)%nat)
  || ((65 <=? n)%nat && (n <=? 90)%nat)
  || ((97 <=? n)%nat && (n <=? 122)%nat)
  || match c with
     | "!" | "#" | "$" | "%" | "&" | "'" | "*" | "+" | "-" | "."
     | "^" | "_" | "`" | "|" | "~" => true
     | _ => false
     end%char.

Definition is_name (name : string) : bool :=
  JsString.nonempty name && JsString.forallb_string is_tchar name.

Definition values_of (hs : t) (lname : string) : list string :=
  map snd (filter (λ kv, JsString.toLowerCase kv.1 = lname) hs).

(** The combined value of a name that is already lower-cased. *)
Definition combined (hs : t) (lname : string) : option string :=
  match values_of hs lname with
  | [] => None
  | vs => Some (JsString.join ", " vs)
  end.

(** [hs.get(name)]: case-insensitive, values joined with a comma and a
    space; a name that is not a token is a [TypeError]. *)
Definition get (hs : t) (name : string) : result (option string) :=
  if is_name name then Ok (combined hs (JsString.toLowerCase name))
  else Throw (TypeError ("Invalid header name: " ++ name)).

Fixpoint insert_sorted (x : string) (l : list string) : list string :=
  match l with
  | [] => [x]
  | y :: l' =>
      if String.eqb x y then l
      else if String.ltb x y then x :: l
      else y :: insert_sorted x l'
  end.

(** The distinct lower-cased names, sorted. *)
Definition names (hs : t) : list string :=
  foldr (λ kv acc, insert_sorted (JsString.toLowerCase kv.1) acc) [] hs.

(** The iteration order of [forEach]: names lower-cased, sorted and
    combined, the values of [set-cookie] kept apart. *)
Definition entries (hs : t) : list (string * string) :=
  flat_map (λ n,
    if String.eqb n "set-cookie" then map (λ v, (n, v)) (values_of hs n)
    else match combined hs n with
         | Some v => [(n, v)]
         | None => []
         end) (names hs).

End Headers.

(** ** The platform's [URL] *)

Module URL.

(** The record behind a URL object with an [http] or [https] scheme. The
    [path] starts with a slash; [query] and [fragment] are kept without
    their leading [?] and [#]. *)
Inductive scheme_t := http | https.

Definition scheme_name (sch : scheme_t) : string :=
  match sch with http => "http" | https => "https" end.

Record t := mk {
  scheme : scheme_t;
  host : string;
  path : string;
  query : option string;
  fragment : option string
}.

Definition pathname (u : t) : string := path u.

Definition search (u : t) : string :=
  match query u with
  | None | Some EmptyString => EmptyString
  | Some q => "?" ++ q
  end.

Definition hash (u : t) : string :=
  match fragment u with
  | None | Some EmptyString => EmptyString
  | Some f => "#" ++ f
  end.

(** The URL serializer: [href] and [toString()]. *)
Definition href (u : t) : string :=
  scheme_name (scheme u) ++ "://" ++ host u ++ path u
  ++ match query u with None => EmptyString | Some q => "?" ++ q end
  ++ match fragment u with None => EmptyString | Some f => "#" ++ f end.

Definition toString := href.

(** [u.pathname = v]. The values the program assigns come out of another
    URL object, so they are already in serialized form; the setter's
    percent-encoding and dot-segment removal are the identity on them and
    are not modelled. An empty path of a special URL is the root. *)
Definition set_pathname (v : string) (u : t) : t :=
  let p := match v with
           | EmptyString => "/"
           | String "/" _ => v
           | _ => "/" ++ v
           end in
  mk (scheme u) (host u) p (query u) (fragment u).

(** [u.search = v]: the empty string removes the query, a leading [?] is
    dropped. *)
Definition set_search (v : string) (u : t) : t :=
  let q := match v with
           | EmptyString => None
           | String "?" v' => Some v'
           | _ => Some v
           end in
  mk (scheme u) (host u) (path u) q (fragment u).

Definition is_digit (c : ascii) : bool :=
  let n := nat_of_ascii c in (48 <=? n)%nat && (n <=? 57)%nat.

Definition is_host_char (c : ascii) : bool :=
  let n := nat_of_ascii c in
  is_digit c
  || ((65 <=? n)%nat && (n <=? 90)%nat)
  || ((97 <=? n)%nat && (n <=? 122)%nat)
  || match c with "-" | "." | "_" => true | _ => false end%char.

Fixpoint digits_value (acc : N) (s : string) : N :=
  match s with
  | EmptyString => acc
  | String c s' =>
      digits_value (acc * 10 + (N_of_ascii c - 48))%N s'
  end.

Definition default_port (sch : scheme_t) : N :=
  match sch with https => 443%N | http => 80%N end.

Fixpoint strip_zeros (s : string) : string :=
  match s with
  | String "0" (String _ _ as s') => strip_zeros s'
  | _ => s
  end.

(** The host parser on the domain names the model covers: a non-empty run
    of letters, digits, [-], [.] and [_], lower-cased, with an optional
    decimal port that is dropped when it is the scheme's default. Anything
    else (credentials, address literals, escapes) is rejected. *)
Definition parse_authority (sch : scheme_t) (auth : string)
  : option string :=
  let '(h, p) := JsString.cut ":" auth in
  if JsString.nonempty h && JsString.forallb_string is_host_char h then
    let h' := JsString.toLowerCase h in
    match p with
    | None | Some EmptyString => Some h'
    | Some digits =>
        if JsString.forallb_string is_digit digits
           && (digits_value 0 digits <? 65536)%N then
          if (digits_value 0 digits =? default_port sch)%N then Some h'
          else Some (h' ++ ":" ++ strip_zeros digits)
        else None
    end
  else None.

Definition strip_scheme (s : string) : option (scheme_t * string) :=
  if String.prefix "https://" s
  then Some (https, String.substring 8 (String.length s - 8) s)
  else if String.prefix "http://" s
  then Some (http, String.substring 7 (String.length s - 7) s)
  else None.

(** [new URL(s)] for an absolute [http(s)://] string: the fragment is cut
    at the first [#], the query at the first [?], the authority ends at the
    first [/]. A string the parser rejects raises a [TypeError]. The
    percent-encoding and the dot-segment removal of the path are not
    modelled. *)
Definition parse (s : string) : result t :=
  match strip_scheme s with
  | None => Throw (TypeError "Invalid URL")
  | Some (sch, rest) =>
      let '(r1, frag) := JsString.cut "#" rest in
      let '(r2, q) := JsString.cut "?" r1 in
      let '(auth, p) := JsString.cut "/" r2 in
      match parse_authority sch auth with
      | None => Throw (TypeError "Invalid URL")
      | Some h =>
          Ok (mk sch h
                (match p with None => "/" | Some p' => "/" ++ p' end)
                q frag)
      end
  end.

Definition hex_value (c : ascii) : option nat :=
  let n := nat_of_ascii c in
  if is_digit c then Some (n - 48)
  else if (65 <=? n)%nat && (n <=? 70)%nat then Some (n - 55)
  else if (97 <=? n)%nat && (n <=? 102)%nat then Some (n - 87)
  else None.

(** Form decoding of one name or value: [+] is a space, [%XY] a byte. *)
Fixpoint form_decode (s : string) : string :=
  match s with
  | EmptyString => EmptyString
  | String "+" s' => String " " (form_decode s')
  | String "%" (String a (String b s' as t1) as t2) =>
      match hex_value a, hex_value b with
      | Some x, Some y => String (ascii_of_nat (16 * x + y)) (form_decode s')
      | _, _ => String "%" (String a (form_decode t1))
      end
  | String c s' => String c (form_decode s')
  end.

(** [u.searchParams]: the query split at [&], empty pieces skipped, each
    piece split at its first [=]. *)
Definition searchParams (u : t) : list (string * string) :=
  match query u with
  | None => []
  | Some q =>
      omap (λ piece,
        match piece with
        | EmptyString => None
        | _ => let '(n, v) := JsString.cut "=" piece in
               Some (form_decode n, form_decode (default EmptyString v))
        end) (JsString.split "&" q)
  end.

(** [params.get(name)]: the first value under [name], or [null]. *)
Definition searchParams_get (ps : list (string * string)) (name : string)
  : option string :=
  snd <$> List.find (λ kv, String.eqb kv.1 name) ps.

End URL.

(** ** The platform's [RegExp]

    The pattern language covered: literal characters, [.], the assertions
    [^] and [$], escaped punctuation, groups (capturing or [(?:...)]),
    alternation and the quantifiers [*], [+], [?] (greedy or lazy). A pattern
    outside of it (classes, counted repetition, letter escapes, look-around)
    is rejected like a malformed one. *)

Module RegExp.

Inductive t :=
| Eps
| Chr (c : ascii)
| Any
| Bol
| Eol
| Seq (a b : t)
| Alt (a b : t)
| Star (a : t).

Definition is_alnum (c : ascii) : bool :=
  let n := nat_of_ascii c in
  ((48 <=? n)%nat && (n <=? 57)%nat)
  || ((65 <=? n)%nat && (n <=? 90)%nat)
  || ((97 <=? n)%nat && (n <=? 122)%nat).

(** An optional quantifier after the atom [a]. *)
Definition quantifier (a : t) (s : string) : t * string :=
  let lazy (r : string) :=
    match r with String "?" r' => r' | _ => r end in
  match s with
  | String "*" r => (Star a, lazy r)
  | String "+" r => (Seq a (Star a), lazy r)
  | String "?" r => (Alt a Eps, lazy r)
  | _ => (a, s)
  end.

Fixpoint parse_disjunction (n : nat) (s : string) : option (t * string) :=
  match n with
  | O => None
  | S n' =>
      '(a, rest) ← parse_alternative n' s;
      match rest with
      | String "|" rest' =>
          '(b, rest'') ← parse_disjunction n' rest';
          Some (Alt a b, rest'')
      | _ => Some (a, rest)
      end
  end
with parse_alternative (n : nat) (s : string) : option (t * string) :=
  match n with
  | O => None
  | S n' =>
      match s with
      | EmptyString | String "|" _ | String ")" _ => Some (Eps, s)
      | _ =>
          '(a, rest) ← parse_term n' s;
          '(b, rest') ← parse_alternative n' rest;
          Some (Seq a b, rest')
      end
  end
with parse_term (n : nat) (s : string) : option (t * string) :=
  match n with
  | O => None
  | S n' =>
      match s with
      | EmptyString => None
      | String "^" r => Some (Bol, r)
      | String "$" r => Some (Eol, r)
      | String "." r => Some (quantifier Any r)
      | String "(" r =>
          let body :=
            match r with
            | String "?" (String ":" r') => Some r'
            | String "?" _ => None
            | _ => Some r
            end in
          b ← body;
          '(d, rest) ← parse_disjunction n' b;
          match rest with
          | String ")" rest' => Some (quantifier d rest')
          | _ => None
          end
      | String "\" (String c r) =>
          if is_alnum c then None else Some (quantifier (Chr c) r)
      | String "\" EmptyString => None
      | String "*" _ | String "+" _ | String "?" _
      | String "[" _ | String "{" _ => None
      | String c r => Some (quantifier (Chr c) r)
      end
  end.

(** [new RegExp(source)] *)
Definition compile (source : string) : result t :=
  match parse_disjunction (4 * String.length source + 4) source with
  | Some (r, EmptyString) => Ok r
  | _ => Throw (SyntaxError ("Invalid regular expression: " ++ source))
  end.

Definition is_line_terminator (c : ascii) : bool :=
  match c with "010" | "013" => true | _ => false end%char.

(** Backtracking matcher. [bol] tells whether the position is the start
    of the input, [s] is what is left of it, [k] is the rest of the
    pattern. An iteration of a star that consumes nothing is cut. *)
Fixpoint matches (r : t) (bol : bool) (s : string)
  (k : bool → string → bool) : bool :=
  match r with
  | Eps => k bol s
  | Chr c =>
      match s with
      | String d s' => Ascii.eqb c d && k false s'
      | EmptyString => false
      end
  | Any =>
      match s with
      | String d s' => negb (is_line_terminator d) && k false s'
      | EmptyString => false
      end
  | Bol => bol && k bol s
  | Eol => match s with EmptyString => k bol s | _ => false end
  | Seq a b => matches a bol s (λ bol' s', matches b bol' s' k)
  | Alt a b => matches a bol s k || matches b bol s k
  | Star a =>
      (fix loop (n : nat) (bol : bool) (s : string) : bool :=
         k bol s
         || match n with
            | O => false
            | S n' =>
                matches a bol s (λ bol' s',
                  (String.length s' <? String.length s)%nat
                  && loop n' bol' s')
            end) (String.length s) bol s
  end.

Fixpoint search (r : t) (bol : bool) (s : string) : bool :=
  matches r bol s (λ _ _, true)
  || match s with
     | EmptyString => false
     | String _ s' => search r false s'
     end.

(** [re.test(s)] of a pattern without flags: is there a match anywhere. *)
Definition test (r : t) (s : string) : bool := search r true s.

End RegExp.

(** ** constants.ts *)

Definition CRAWLER_USER_AGENTS : list string :=
  [ "googlebot"; "Google-InspectionTool"; "Yahoo! Slurp"; "bingbot"; "yandex";
    "baiduspider"; "facebookexternalhit"; "twitterbot"; "rogerbot";
    "linkedinbot"; "embedly"; "quora link preview"; "showyoubot"; "outbrain";
    "pinterest/0."; "developers.google.com/+/web/snippet"; "slackbot";
    "vkShare"; "W3C_Validator"; "redditbot"; "Applebot"; "WhatsApp";
    "flipboard"; "tumblr"; "bitlybot"; "SkypeUriPreview"; "nuzzel";
    "Discordbot"; "Google Page Speed"; "Qwantify"; "pinterestbot";
    "Bitrix link preview"; "XING-contenttabreceiver"; "Chrome-Lighthouse";
    "TelegramBot"; "SeznamBot"; "screaming frog SEO spider"; "AhrefsBot";
    "AhrefsSiteAudit"; "Iframely" ].

Definition EXTENSIONS_TO_IGNORE : list string :=
  [ ".js"; ".css"; ".xml"; ".less"; ".png"; ".jpg"; ".jpeg"; ".gif"; ".pdf";
    ".doc"; ".txt"; ".ico"; ".rss"; ".zip"; ".mp3"; ".rar"; ".exe"; ".wmv";
    ".doc"; ".avi"; ".ppt"; ".mpg"; ".mpeg"; ".tif"; ".wav"; ".mov"; ".psd";
    ".ai"; ".xls"; ".mp4"; ".m4a"; ".swf"; ".dat"; ".dmg"; ".iso"; ".flv";
    ".m4v"; ".torrent"; ".woff"; ".woff2"; ".ttf"; ".svg"; ".webmanifest";
    ".webp" ].

(** ** Requests, hooks and the configuration *)

Record Request := mkRequest {
  method : string;
  url : URL.t;
  headers : Headers.t
}.

Record Context := mkContext { request : Request }.

(** A value of the option bag:
    [boolean | number | string | { [key: string]: string }]. *)
Inductive OptionValue :=
| OBool (b : bool)
| ONum (n : Z)
| OStr (s : string)
| ODict (d : gmap string string).

Abbreviation PrerenderOptions := (gmap string OptionValue).

Record AfterRenderOptions := mkAfterRender { cancelRender : bool }.

(** What a cache read resolves to: [{ body: string; error?: string }]. *)
Record CacheOutcome := mkCacheOutcome {
  co_body : string;
  co_error : option string
}.

(** What the retrieval returns:
    [{ error: string | null; body: string | null }]. *)
Record RetrievalResult := mkRetrieval {
  rr_error : option string;
  rr_body : option string
}.

(** The hooks are asynchronous functions of the host; a rejected promise is
    a [Throw], a resolved [void] is [None]. *)
Definition CacheReadFunction := Request → result CacheOutcome.
Definition CacheWriteFunction :=
  Request → option string → option string → result (option AfterRenderOptions).

Record Prerenderer := mkPrerenderer {
  _resolveCache : option CacheReadFunction;
  _writeCache : option CacheWriteFunction;
  _whitelist : option (list string);
  _blacklist : option (list string);
  forwardHeaders : bool;
  prerenderToken : string;
  prerenderServiceUrl : string;
  prerenderServerRequestOptions : PrerenderOptions
}.

(** The instance the module exports, before the host configures it. *)
Definition defaultPrerenderer : Prerenderer :=
  {| _resolveCache := None;
     _writeCache := None;
     _whitelist := None;
     _blacklist := None;
     forwardHeaders := false;
     prerenderToken := EmptyString;
     prerenderServiceUrl := "http://service.prerender.io/";
     prerenderServerRequestOptions := ∅ |}.

(** The setters [whiteListed] and [blackListed]: a single string becomes a
    one-element list. *)
Definition normalize_list (v : string + list string) : list string :=
  match v with
  | inl s => [s]
  | inr l => l
  end.

(** ** [buildApiUrl] *)

Definition buildApiUrl (P : Prerenderer) (req : Request) : result string :=
  let prerenderUrl := prerenderServiceUrl P in
  let forwardSlash :=
    if JsString.includes_from "/" (String.length prerenderUrl - 1) prerenderUrl
    then EmptyString else "/" in
  let protocol := "https" in
  forwarded ← Headers.get (headers req) "x-forwarded-host";
  hostPort ← (if JsString.truthy forwarded then mret forwarded
              else Headers.get (headers req) "host");
  u ← URL.parse (protocol ++ "://" ++ JsString.interpolate hostPort);
  let u := URL.set_pathname (URL.pathname (url req)) u in
  let u := URL.set_search (URL.search (url req)) u in
  let fullUrl := URL.toString u in
  mret (prerenderUrl ++ forwardSlash ++ fullUrl).

(** ** [shouldShowPrerenderedPage] *)

(** [l.some(f)] and [l.every(f)] for a callback that may throw: the list is
    walked from the left and the walk stops at the first decisive element. *)
Fixpoint some {A} (f : A → result bool) (l : list A) : result bool :=
  match l with
  | [] => Ok false
  | x :: l' => b ← f x; if b : bool then Ok true else some f l'
  end.

Fixpoint every {A} (f : A → result bool) (l : list A) : result bool :=
  match l with
  | [] => Ok true
  | x :: l' => b ← f x; if b : bool then every f l' else Ok false
  end.

Definition shouldShowPrerenderedPage (P : Prerenderer) (request : Request)
  : result bool :=
  userAgent ← Headers.get (headers request) "user-agent";
  bufferAgent ← Headers.get (headers request) "x-bufferbot";
  let isRequestingPrerenderedPage := false in
  match userAgent with
  | None | Some EmptyString => Ok false
  | Some userAgent =>
  if negb (String.eqb (method request) "GET")
     && negb (String.eqb (method request) "HEAD") then Ok false else
  xPrerender ← Headers.get (headers request) "x-prerender";
  if JsString.truthy xPrerender then Ok false else
  let parsedUrl := url request in
  let parsedQuery := URL.searchParams parsedUrl in
  let isRequestingPrerenderedPage :=
    if JsString.truthy (URL.searchParams_get parsedQuery "_escaped_fragment_")
    then true else isRequestingPrerenderedPage in
  let isRequestingPrerenderedPage :=
    if existsb (λ crawlerUserAgent,
         JsString.includes (JsString.toLowerCase crawlerUserAgent)
                           (JsString.toLowerCase userAgent))
       CRAWLER_USER_AGENTS
    then true else isRequestingPrerenderedPage in
  let isRequestingPrerenderedPage :=
    if JsString.truthy bufferAgent then true
    else isRequestingPrerenderedPage in
  let parsedPathname := JsString.toLowerCase (URL.pathname parsedUrl) in
  if existsb (λ extension, JsString.endsWith parsedPathname extension)
       EXTENSIONS_TO_IGNORE
  then Ok false else
  notWhitelisted ←
    match _whitelist P with
    | Some whitelist =>
        every (λ whitelisted,
          re ← RegExp.compile whitelisted;
          mret (Bool.eqb (RegExp.test re (URL.href (url request))) false))
          whitelist
    | None => Ok false
    end;
  if notWhitelisted : bool then Ok false else
  blacklisted ←
    match _blacklist P with
    | Some blacklist =>
        some (λ blacklisted,
          let blacklistedUrl := false in
          let blacklistedReferer := false in
          regex ← RegExp.compile blacklisted;
          let blacklistedUrl :=
            Bool.eqb (RegExp.test regex (URL.href (url request))) true in
          referer ← Headers.get (headers request) "referer";
          blacklistedReferer ←
            (if JsString.truthy referer then
               referer' ← Headers.get (headers request) "referer";
               mret (Bool.eqb (RegExp.test regex
                                 (JsString.interpolate referer')) true)
             else mret blacklistedReferer);
          mret (blacklistedUrl || blacklistedReferer))
          blacklist
    | None => Ok false
    end;
  if blacklisted : bool then Ok false else
  Ok isRequestingPrerenderedPage
  end.

(** ** The object heap

    The retriever builds its option bag by mutating objects through
    references, so objects live in a heap and a property holds either a
    primitive or the address of another object. *)

Inductive prim :=
| PNull
| PBool (b : bool)
| PNum (n : Z)
| PStr (s : string).

Abbreviation loc := nat.

Inductive value :=
| VPrim (p : prim)
| VRef (l : loc).

Abbreviation object := (gmap string value).
Abbreviation heap := (list object).

Definition str (s : string) : value := VPrim (PStr s).

(** A [string | null] stored as a property. *)
Definition str_or_null (o : option string) : value :=
  match o with
  | Some s => str s
  | None => VPrim PNull
  end.

(** What [fetch] receives as its second argument: the own properties of the
    init object, the ones that are objects read through one level. *)
Inductive InitValue :=
| IPrim (p : prim)
| IObj (o : gmap string prim).

Abbreviation RequestInit := (gmap string InitValue).

Definition read_object (h : heap) (l : loc) : object := default ∅ (h !! l).

Definition flat (o : object) : gmap string prim :=
  omap (λ v, match v with VPrim p => Some p | VRef _ => None end) o.

Definition snapshot (h : heap) (l : loc) : RequestInit :=
  (λ v, match v with
        | VPrim p => IPrim p
        | VRef l' => IObj (flat (read_object h l'))
        end) <$> read_object h l.

(** ** The host: the network and the rest of the middleware chain *)

Record Response := mkResponse {
  status : nat;
  (** [await response.text()]; an aborted read rejects *)
  text : result string
}.

Record World := mkWorld {
  (** [await fetch(url, init)]; a transport failure rejects *)
  fetch : URL.t → RequestInit → result Response;
  (** [await next()] *)
  next : result prim
}.

(** What the handler lets the outside see, in order. *)
Inductive Event :=
| ConsoleInfo (args : list string)
| ResolveCacheCalled (req : Request)
| FetchCalled (u : URL.t) (init : RequestInit)
| WriteCacheCalled (req : Request) (error body : option string)
| NextCalled.

(** ** The monad of the handler: heap in, heap and events out, or a throw *)

Definition M (A : Type) : Type := heap → (heap * list Event) * result A.

Global Instance M_ret : MRet M := λ _ a h, ((h, []), Ok a).
Global Instance M_bind : MBind M := λ _ _ k m h,
  match m h with
  | ((h1, t1), Ok a) => let '((h2, t2), r) := k a h1 in ((h2, app t1 t2), r)
  | ((h1, t1), Throw e) => ((h1, t1), Throw e)
  end.
Global Instance M_fmap : FMap M := λ _ _ f m, a ← m; mret (f a).

Definition throw {A} (e : Error) : M A := λ h, ((h, []), Throw e).

(** A computation that touches neither the heap nor the outside. *)
Definition lift {A} (r : result A) : M A := λ h, ((h, []), r).

(** [try { m } catch (e) { handler e }] *)
Definition try_catch {A} (m : M A) (handler : Error → M A) : M A := λ h,
  match m h with
  | ((h1, t1), Ok a) => ((h1, t1), Ok a)
  | ((h1, t1), Throw e) =>
      let '((h2, t2), r) := handler e h1 in ((h2, app t1 t2), r)
  end.

Definition emit (ev : Event) : M unit := λ h, ((h, [ev]), Ok ()).

Definition console_info (args : list string) : M unit :=
  emit (ConsoleInfo args).

(** An object literal. *)
Definition new_object (o : object) : M loc := λ h,
  ((app h [o], []), Ok (List.length h)).

(** [o[k] = v] *)
Definition set_prop (l : loc) (k : string) (v : value) : M unit := λ h,
  ((alter (insert k v) l h, []), Ok ()).

(** [Object.assign(target, source)]: the own properties of the source are
    written onto the target, references copied as references. *)
Definition assign1 (target source : loc) : M unit := λ h,
  ((alter (λ o, read_object h source ∪ o) target h, []), Ok ()).

Fixpoint Object_assign (target : loc) (sources : list loc) : M loc :=
  match sources with
  | [] => mret target
  | s :: rest => assign1 target s;; Object_assign target rest
  end.

Fixpoint forEach {A} (l : list A) (f : A → M unit) : M unit :=
  match l with
  | [] => mret ()
  | x :: l' => f x;; forEach l' f
  end.

(** [hs.forEach(cb)]: the callback receives the value first, then the
    name. *)
Definition Headers_forEach (hs : Headers.t) (cb : string → string → M unit)
  : M unit :=
  forEach (Headers.entries hs) (λ '(name, v), cb v name).

(** [JSON.parse(JSON.stringify(options))]: a fresh object, with a fresh
    object for every nested dictionary. *)
Definition json_value (v : OptionValue) : M value :=
  match v with
  | OBool b => mret (VPrim (PBool b))
  | ONum n => mret (VPrim (PNum n))
  | OStr s => mret (str s)
  | ODict d => l ← new_object (str <$> d); mret (VRef l)
  end.

Fixpoint json_props (kvs : list (string * OptionValue))
  : M (list (string * value)) :=
  match kvs with
  | [] => mret []
  | (k, v) :: rest =>
      v' ← json_value v;
      rest' ← json_props rest;
      mret ((k, v') :: rest')
  end.

Definition json_clone (options : PrerenderOptions) : M loc :=
  props ← json_props (map_to_list options);
  new_object (list_to_map props).

(** [await fetch(u, init)]: the platform reads the init object as it is at
    the time of the call. *)
Definition await_fetch (W : World) (u : URL.t) (init : loc) : M Response :=
  λ h, ((h, [FetchCalled u (snapshot h init)]), fetch W u (snapshot h init)).

(** ** [getPrerenderedPageResponse] *)

Definition getPrerenderedPageResponse (P : Prerenderer) (W : World)
  (context : Context) : M RetrievalResult :=
  console_info ["invoking prerender server"];;
  try_catch
    (let req := request context in
     let req_headers := headers req in
     headers ← new_object ∅;
     options ← new_object {[ "headers" := VRef headers ]};
     copy ← json_clone (prerenderServerRequestOptions P);
     _ ← Object_assign options [copy];
     (if forwardHeaders P then
        Headers_forEach req_headers (λ h _,
          if String.eqb h "host" then mret ()
          else
            v ← lift (Headers.get req_headers h);
            set_prop headers h (str_or_null v))
      else mret ());;
     userAgent ← lift (Headers.get req_headers "user-agent");
     set_prop headers "User-Agent" (str_or_null userAgent);;
     set_prop headers "Accept-Encoding" (str "gzip");;
     (if JsString.nonempty (prerenderToken P)
      then set_prop headers "X-Prerender-Token" (str (prerenderToken P))
      else mret ());;
     apiUrl ← lift (buildApiUrl P req);
     u ← lift (URL.parse apiUrl);
     init ← (target ← new_object ∅;
             fixed ← new_object {[ "method" := str "GET" ]};
             Object_assign target [options; fixed]);
     response ← await_fetch W u init;
     body ← lift (text response);
     mret {| rr_error := None; rr_body := Some body |})
    (λ error,
       console_info ["Error in prerender server"; message error];;
       mret {| rr_error := Some (message error); rr_body := None |}).

(** ** [prerender] *)

(** What the handler resolves to: what the continuation resolved to, or a
    body ([string | null]). *)
Inductive RetVal :=
| FromNext (v : prim)
| Body (b : option string).

Definition await_next (W : World) : M prim := λ h,
  ((h, [NextCalled]), next W).

Definition await_resolveCache (f : CacheReadFunction) (req : Request)
  : M CacheOutcome := λ h,
  ((h, [ResolveCacheCalled req]), f req).

Definition await_writeCache (f : CacheWriteFunction) (req : Request)
  (error body : option string) : M (option AfterRenderOptions) := λ h,
  ((h, [WriteCacheCalled req error body]), f req error body).

Definition prerender (P : Prerenderer) (W : World) (context : Context)
  : M RetVal :=
  eligible ← lift (shouldShowPrerenderedPage P (request context));
  if negb eligible then FromNext <$> await_next W else
  cached ←
    match _resolveCache P with
    | Some resolveCache =>
        console_info ["trying to resolve cache"];;
        r ← await_resolveCache resolveCache (request context);
        let error := co_error r in
        let body := co_body r in
        if negb (JsString.truthy error) && JsString.nonempty body
        then mret (Some body) else mret None
    | None => mret None
    end;
  match cached with
  | Some body => mret (Body (Some body))
  | None =>
      r ← getPrerenderedPageResponse P W context;
      let error := rr_error r in
      let body := rr_body r in
      cacheOptions ←
        match _writeCache P with
        | Some writeCache =>
            o ← await_writeCache writeCache (request context) error body;
            mret (default {| cancelRender := false |} o)
        | None => mret {| cancelRender := false |}
        end;
      if cancelRender cacheOptions then FromNext <$> await_next W else
      match error with
      | Some (String _ _ as msg) => throw (mkError "Error" msg)
      | _ => mret (Body body)
      end
  end.

(** Running a handler from an empty heap: the events and the outcome. *)
Definition trace_of {A} (m : M A) : list Event := (m []).1.2.
Definition outcome_of {A} (m : M A) : result A := (m []).2.

(** ** Configurations and requests of the examples *)

Definition with_whitelist (whitelist : list string) : Prerenderer :=
  {| _resolveCache := None;
     _writeCache := None;
     _whitelist := Some (normalize_list (inr whitelist));
     _blacklist := None;
     forwardHeaders := false;
     prerenderToken := EmptyString;
     prerenderServiceUrl := "http://service.prerender.io/";
     prerenderServerRequestOptions := ∅ |}.

Definition with_serviceUrl (base : string) : Prerenderer :=
  {| _resolveCache := None;
     _writeCache := None;
     _whitelist := None;
     _blacklist := None;
     forwardHeaders := false;
     prerenderToken := EmptyString;
     prerenderServiceUrl := base;
     prerenderServerRequestOptions := ∅ |}.

(** A [GET] from a crawler for [https://example.com<path>]. *)
Definition crawler_get (path : string) : Request :=
  {| method := "GET";
     url := URL.mk URL.https "example.com" path None None;
     headers := [ ("host", "example.com");
                  ("user-agent",
                   "Mozilla/5.0 (compatible; Googlebot/2.1; +http://www.google.com/bot.html)") ] |}.

(** The whitelist example, as the specification words it. *)
Definition whitelist_example_as_stated : Prop :=
  shouldShowPrerenderedPage (with_whitelist ["^/public/"])
    (crawler_get "/private/x") = Ok false
  ∧ shouldShowPrerenderedPage (with_whitelist ["^/public/"])
      (crawler_get "/public/x") = Ok true.

(** The request of the upstream URL example: path [/a], query [?b=1],
    [x-forwarded-host: host]. *)
Definition forwarded_request (m : string) (u : URL.t) : Request :=
  {| method := m;
     url := URL.set_search "?b=1" (URL.set_pathname "/a" u);
     headers := [ ("x-forwarded-host", "host") ] |}.

(** ** Notions of the statements *)

(** A computation that lets the outside see nothing. *)
Definition silent {A} (m : M A) : Prop := ∀ h, (m h).1.2 = [].

(** The init objects of the calls to [fetch] recorded in a trace. *)
Definition fetch_inits (t : list Event) : list RequestInit :=
  omap (λ ev, match ev with FetchCalled _ init => Some init | _ => None end) t.

Definition GET : InitValue := IPrim (PStr "GET").

(** The events of a cache read. *)
Definition read_events (P : Prerenderer) (req : Request) : list Event :=
  match _resolveCache P with
  | Some _ => [ConsoleInfo ["trying to resolve cache"]; ResolveCacheCalled req]
  | None => []
  end.

(** The request gets past the classifier and the cache: it is eligible, and
    the read hook, if there is one, resolves to a miss. *)
Definition reaches_retrieval (P : Prerenderer) (req : Request) : Prop :=
  shouldShowPrerenderedPage P req = Ok true
  ∧ match _resolveCache P with
    | Some resolveCache =>
        ∃ co, resolveCache req = Ok co
              ∧ (JsString.truthy (co_error co) = true
                 ∨ co_body co = EmptyString)
    | None => True
    end.

(** The write hook is absent, or resolves to no value, or to
    [{ cancelRender: false }]. *)
Definition no_cancel (P : Prerenderer) (req : Request) (rr : RetrievalResult)
  : Prop :=
  match _writeCache P with
  | Some writeCache =>
      writeCache req (rr_error rr) (rr_body rr) = Ok None
      ∨ writeCache req (rr_error rr) (rr_body rr)
        = Ok (Some {| cancelRender := false |})
  | None => True
  end.

(** What the [try] block of the retriever leaves behind: either it threw
    before any call went out, or exactly one call went out, with method
    [GET], and the block ended the way the call and the read of the body
    did. *)
Definition try_block_post (W : World)
  (res : heap * list Event * result RetrievalResult) : Prop :=
  (res.1.2 = [] ∧ ∃ e, res.2 = Throw e)
  ∨ ∃ u init,
      init !! "method" = Some GET
      ∧ res.1.2 = [FetchCalled u init]
      ∧ res.2 = (response ← fetch W u init;
                 body ← text response;
                 mret {| rr_error := None; rr_body := Some body |}).

(** A host whose rendering backend answers every call with a page. *)
Definition backend_up : World :=
  {| fetch := λ _ _, Ok {| status := 200; text := Ok "<html></html>" |};
     next := Ok PNull |}.

(** A configuration whose extra options carry a [headers] dictionary, and
    an authentication token. *)
Definition with_extra_headers : Prerenderer :=
  {| _resolveCache := None;
     _writeCache := None;
     _whitelist := None;
     _blacklist := None;
     forwardHeaders := false;
     prerenderToken := "secret";
     prerenderServiceUrl := "http://service.prerender.io/";
     prerenderServerRequestOptions :=
       {[ "headers" := ODict {[ "User-Agent" := "custom-agent" ]} ]} |}.

(** A configuration that overrides the method in its extra options. *)
Definition with_method_post : Prerenderer :=
  {| _resolveCache := None;
     _writeCache := None;
     _whitelist := None;
     _blacklist := None;
     forwardHeaders := false;
     prerenderToken := EmptyString;
     prerenderServiceUrl := "http://service.prerender.io/";
     prerenderServerRequestOptions := {[ "method" := OStr "POST" ]} |}.

Definition with_forwardHeaders : Prerenderer :=
  {| _resolveCache := None;
     _writeCache := None;
     _whitelist := None;
     _blacklist := None;
     forwardHeaders := true;
     prerenderToken := EmptyString;
     prerenderServiceUrl := "http://service.prerender.io/";
     prerenderServerRequestOptions := ∅ |}.

(** A [GET] with three headers whose values are all tokens. *)
Definition traced_get : Request :=
  {| method := "GET";
     url := URL.mk URL.https "example.com" "/" None None;
     headers := [ ("host", "example.com");
                  ("user-agent", "googlebot");
                  ("x-trace", "abc") ] |}.

(** The [headers] entry of the init object of a call. *)
Definition outbound_headers (init : RequestInit) : option (gmap string prim) :=
  match init !! "headers" with
  | Some (IObj o) => Some o
  | _ => None
  end.

(** A host whose backend call fails with an error that has no message. *)
Definition backend_down_quietly : World :=
  {| fetch := λ _ _, Throw (mkError "Error" EmptyString);
     next := Ok PNull |}.

(** A host whose backend refuses the connection. *)
Definition backend_down : World :=
  {| fetch := λ _ _, Throw (TypeError "error sending request: connection refused");
     next := Ok PNull |}.

(** The propagation of a failed retrieval, as the specification words it:
    any non-null error is rethrown. *)
Definition failed_retrieval_as_stated (P : Prerenderer) (W : World)
  (ctx : Context) : Prop :=
  ∀ rr e,
    reaches_retrieval P (request ctx) →
    outcome_of (getPrerenderedPageResponse P W ctx) = Ok rr →
    rr_error rr = Some e →
    no_cancel P (request ctx) rr →
    outcome_of (prerender P W ctx) = Throw (mkError "Error" e)
    ∧ NextCalled ∉ trace_of (prerender P W ctx).

(** A write hook that always asks for cancellation, and one that never
    does. *)
Definition cancelling_hook : CacheWriteFunction :=
  λ _ _ _, Ok (Some {| cancelRender := true |}).

Definition storing_hook : CacheWriteFunction :=
  λ _ _ _, Ok (Some {| cancelRender := false |}).

Definition with_hooks (read : option CacheReadFunction)
  (write : option CacheWriteFunction) : Prerenderer :=
  {| _resolveCache := read;
     _writeCache := write;
     _whitelist := None;
     _blacklist := None;
     forwardHeaders := false;
     prerenderToken := EmptyString;
     prerenderServiceUrl := "http://service.prerender.io/";
     prerenderServerRequestOptions := ∅ |}.

(** A cache that holds a page, and one that holds nothing. *)
Definition cache_full : CacheReadFunction :=
  λ _, Ok {| co_body := "<html>cached</html>"; co_error := None |}.

Definition cache_empty : CacheReadFunction :=
  λ _, Ok {| co_body := EmptyString; co_error := Some "not found" |}.

Definition prim_or_null (o : option string) : prim :=
  match o with Some s => PStr s | None => PNull end.

(** The always-set headers of a call: the request's user-agent, the fixed
    encoding and, when there is one, the token. *)
Definition always_set (P : Prerenderer) (req : Request) (init : RequestInit)
  : Prop :=
  ∃ o, outbound_headers init = Some o
       ∧ o !! "User-Agent"
         = Some (prim_or_null (Headers.combined (headers req) "user-agent"))
       ∧ o !! "Accept-Encoding" = Some (PStr "gzip")
       ∧ (prerenderToken P ≠ EmptyString →
          o !! "X-Prerender-Token" = Some (PStr (prerenderToken P))).

(** What the [try] block leaves behind when the extra options carry no
    [headers] entry. *)
Definition headers_post (P : Prerenderer) (req : Request)
  (res : heap * list Event * result RetrievalResult) : Prop :=
  (res.1.2 = [] ∧ ∃ e, res.2 = Throw e)
  ∨ ∃ u init, res.1.2 = [FetchCalled u init] ∧ always_set P req init.

(** The option bag and its header object, while the retriever fills the
    latter: both are on the heap, and the bag still refers to the header
    object. *)
Definition bag_inv (hd opts : loc) (h : heap) : Prop :=
  (hd < List.length h)%nat ∧ (opts < List.length h)%nat ∧ hd ≠ opts
  ∧ read_object h opts !! "headers" = Some (VRef hd).

(** ** The setters of the configuration *)

Definition set_resolveCache (fn : CacheReadFunction) (P : Prerenderer)
  : Prerenderer :=
  {| _resolveCache := Some fn;
     _writeCache := _writeCache P;
     _whitelist := _whitelist P;
     _blacklist := _blacklist P;
     forwardHeaders := forwardHeaders P;
     prerenderToken := prerenderToken P;
     prerenderServiceUrl := prerenderServiceUrl P;
     prerenderServerRequestOptions := prerenderServerRequestOptions P |}.

Definition set_writeCache (fn : CacheWriteFunction) (P : Prerenderer)
  : Prerenderer :=
  {| _resolveCache := _resolveCache P;
     _writeCache := Some fn;
     _whitelist := _whitelist P;
     _blacklist := _blacklist P;
     forwardHeaders := forwardHeaders P;
     prerenderToken := prerenderToken P;
     prerenderServiceUrl := prerenderServiceUrl P;
     prerenderServerRequestOptions := prerenderServerRequestOptions P |}.

(** [whiteListed = v]: an array is kept, a single string is wrapped. *)
Definition set_whiteListed (whitelist : string + list string)
  (P : Prerenderer) : Prerenderer :=
  {| _resolveCache := _resolveCache P;
     _writeCache := _writeCache P;
     _whitelist := Some (normalize_list whitelist);
     _blacklist := _blacklist P;
     forwardHeaders := forwardHeaders P;
     prerenderToken := prerenderToken P;
     prerenderServiceUrl := prerenderServiceUrl P;
     prerenderServerRequestOptions := prerenderServerRequestOptions P |}.

Definition set_blackListed (blacklist : string + list string)
  (P : Prerenderer) : Prerenderer :=
  {| _resolveCache := _resolveCache P;
     _writeCache := _writeCache P;
     _whitelist := _whitelist P;
     _blacklist := Some (normalize_list blacklist);
     forwardHeaders := forwardHeaders P;
     prerenderToken := prerenderToken P;
     prerenderServiceUrl := prerenderServiceUrl P;
     prerenderServerRequestOptions := prerenderServerRequestOptions P |}.

(** ** The signals and the guards of the classifier *)

(** The user-agent names a known crawler, in any case. *)
Definition is_crawler (userAgent : string) : bool :=
  existsb (λ crawlerUserAgent,
    JsString.includes (JsString.toLowerCase crawlerUserAgent)
                      (JsString.toLowerCase userAgent))
    CRAWLER_USER_AGENTS.

(** The path ends, in any case, with an extension of the catalog. *)
Definition is_asset (req : Request) : bool :=
  existsb (λ extension,
    JsString.endsWith (JsString.toLowerCase (URL.pathname (url req))) extension)
    EXTENSIONS_TO_IGNORE.

(** One of the three signals asks for a snapshot. *)
Definition wants_snapshot (req : Request) (userAgent : string) : Prop :=
  JsString.truthy (URL.searchParams_get (URL.searchParams (url req))
                     "_escaped_fragment_") = true
  ∨ is_crawler userAgent = true
  ∨ JsString.truthy (Headers.combined (headers req) "x-bufferbot") = true.

(** A blacklist pattern meets the URL, or the referer when there is one. *)
Definition blacklist_match (req : Request) (regex : RegExp.t) : Prop :=
  RegExp.test regex (URL.href (url req)) = true
  ∨ ∃ referer,
      Headers.combined (headers req) "referer" = Some referer
      ∧ referer ≠ EmptyString
      ∧ RegExp.test regex referer = true.

(** Requests of the examples. *)
Definition with_headers (m path : string) (hs : Headers.t) : Request :=
  {| method := m;
     url := URL.mk URL.https "example.com" path None None;
     headers := hs |}.

(** The separator [buildApiUrl] puts after the base. *)
Definition separator (base : string) : string :=
  if JsString.includes_from "/" (String.length base - 1) base
  then EmptyString else "/".

(** The host [buildApiUrl] builds on: [x-forwarded-host] when it is there
    and not empty, the [host] header otherwise. *)
Definition chosen_host (hs : Headers.t) : option string :=
  if JsString.truthy (Headers.combined hs "x-forwarded-host")
  then Headers.combined hs "x-forwarded-host"
  else Headers.combined hs "host".

(** A host name made of ASCII letters and dots: no port, no address
    literal, nothing the URL parser rewrites but the case. *)
Definition is_name_char (c : ascii) : bool :=
  let n := nat_of_ascii c in
  ((65 <=? n)%nat && (n <=? 90)%nat)
  || ((97 <=? n)%nat && (n <=? 122)%nat)
  || Ascii.eqb c ".".

(** The calls to [fetch] recorded in a trace, with their URL. *)
Definition fetch_calls (t : list Event) : list (URL.t * RequestInit) :=
  omap (λ ev, match ev with
              | FetchCalled u init => Some (u, init)
              | _ => None
              end) t.

(** What the [try] block leaves behind, for a property [Good] of the call:
    it threw before any call, or made one call, a good one. *)
Definition call_post (Good : URL.t → RequestInit → Prop)
  (res : heap * list Event * result RetrievalResult) : Prop :=
  (res.1.2 = [] ∧ ∃ e, res.2 = Throw e)
  ∨ ∃ u init, res.1.2 = [FetchCalled u init] ∧ Good u init.

(** The URL the retriever is to call. *)
Definition upstream_url (P : Prerenderer) (req : Request) : result URL.t :=
  apiUrl ← buildApiUrl P req; URL.parse apiUrl.

(** The header object of a call that forwards nothing. *)
Definition fixed_headers (P : Prerenderer) (req : Request)
  : gmap string prim :=
  let base : gmap string prim :=
    <["Accept-Encoding" := PStr "gzip"]>
      (<["User-Agent" :=
           prim_or_null (Headers.combined (headers req) "user-agent")]> ∅) in
  if JsString.nonempty (prerenderToken P)
  then <["X-Prerender-Token" := PStr (prerenderToken P)]> base
  else base.

(** ** The paths of the handler

    The outcome and the events of [prerender], path by path, given what the
    classifier, the hooks, the retriever and the continuation do. *)

Definition finish (W : World) (t : list Event) (rr : RetrievalResult)
  (cancel : bool) : list Event * result RetVal :=
  if cancel then (app t [NextCalled], FromNext <$> next W)
  else (t, match rr_error rr with
           | Some (String _ _ as msg) => Throw (mkError "Error" msg)
           | _ => Ok (Body (rr_body rr))
           end).

Definition after_miss (P : Prerenderer) (W : World) (ctx : Context)
  (pre : list Event) : list Event * result RetVal :=
  let tr := trace_of (getPrerenderedPageResponse P W ctx) in
  match outcome_of (getPrerenderedPageResponse P W ctx) with
  | Throw e => (app pre tr, Throw e)
  | Ok rr =>
      let written :=
        WriteCacheCalled (request ctx) (rr_error rr) (rr_body rr) in
      match _writeCache P with
      | None => finish W (app pre tr) rr false
      | Some writeCache =>
          match writeCache (request ctx) (rr_error rr) (rr_body rr) with
          | Throw e => (app pre (app tr [written]), Throw e)
          | Ok o =>
              finish W (app pre (app tr [written])) rr
                (cancelRender (default {| cancelRender := false |} o))
          end
      end
  end.

Definition paths (P : Prerenderer) (W : World) (ctx : Context)
  : list Event * result RetVal :=
  match shouldShowPrerenderedPage P (request ctx) with
  | Throw e => ([], Throw e)
  | Ok false => ([NextCalled], FromNext <$> next W)
  | Ok true =>
      match _resolveCache P with
      | None => after_miss P W ctx []
      | Some resolveCache =>
          let pre := [ConsoleInfo ["trying to resolve cache"];
                      ResolveCacheCalled (request ctx)] in
          match resolveCache (request ctx) with
          | Throw e => (pre, Throw e)
          | Ok co =>
              if negb (JsString.truthy (co_error co))
                 && JsString.nonempty (co_body co)
              then (pre, Ok (Body (Some (co_body co))))
              else after_miss P W ctx pre
          end
      end
  end.

(** The calls of an event trace, by kind. *)
Definition is_read (ev : Event) : bool :=
  match ev with ResolveCacheCalled _ => true | _ => false end.
Definition is_fetch (ev : Event) : bool :=
  match ev with FetchCalled _ _ => true | _ => false end.
Definition is_write (ev : Event) : bool :=
  match ev with WriteCacheCalled _ _ _ => true | _ => false end.
Definition is_next (ev : Event) : bool :=
  match ev with NextCalled => true | _ => false end.

Definition count (p : Event → bool) (t : list Event) : nat :=
  List.length (List.filter p t).

(** A read hook that rejects, and a write hook that rejects. *)
Definition cache_unreachable : CacheReadFunction :=
  λ _, Throw (mkError "Error" "cache unreachable").

Definition failing_write : CacheWriteFunction :=
  λ _ _ _, Throw (mkError "Error" "disk full").

(** The event of the cache write, when a write hook is configured. *)
Definition write_events (P : Prerenderer) (req : Request)
  (rr : RetrievalResult) : list Event :=
  match _writeCache P with
  | Some _ => [WriteCacheCalled req (rr_error rr) (rr_body rr)]
  | None => []
  end.

(** * Properties *)

(** ** The classifier *)

Section Classifier.

Implicit Types (P : Prerenderer) (req : Request).

(** Reading a header under a literal token name cannot throw. *)
Lemma get_token hs name :
  Headers.is_name name = true →
  Headers.get hs name = Ok (Headers.combined hs (JsString.toLowerCase name)).
Proof. intros H. unfold Headers.get. by rewrite H. Qed.

(** The rules in front of the whitelist only ever answer [false]; when
    none of them fires, the walk reaches the whitelist, and a whitelist
    that no pattern passes answers [false] too. *)
Lemma classifier_reaches_whitelist P req :
  shouldShowPrerenderedPage P req = Ok false
  ∨ ∃ k : bool → result bool,
      shouldShowPrerenderedPage P req =
        (notWhitelisted ←
           match _whitelist P with
           | Some whitelist =>
               every (λ whitelisted,
                 re ← RegExp.compile whitelisted;
                 mret (Bool.eqb (RegExp.test re (URL.href (url req))) false))
                 whitelist
           | None => Ok false
           end;
         k notWhitelisted)
      ∧ k true = Ok false.
Proof.
  unfold shouldShowPrerenderedPage.
  rewrite !get_token by reflexivity. cbn [mbind result_bind].
  destruct (Headers.combined _ (JsString.toLowerCase "user-agent"))
    as [[|c ua]|]; [by left| |by left].
  destruct (negb _ && negb _); [by left|].
  destruct (JsString.truthy _); [by left|].
  destruct (existsb _ EXTENSIONS_TO_IGNORE); [by left|].
  right. eexists (λ b, if b : bool then Ok false else _). split; reflexivity.
Qed.

(** A pattern that starts with [^] finds nothing past the first position. *)
Lemma search_anchored_later r s : RegExp.search (RegExp.Seq RegExp.Bol r) false s = false.
Proof. induction s as [|c s IH]; [reflexivity|]. cbn. exact IH. Qed.

(** A pattern that starts with [^/] fails on a string that starts with
    another character. *)
Lemma test_anchored_slash r c s :
  c ≠ "/"%char →
  RegExp.test (RegExp.Seq RegExp.Bol (RegExp.Seq (RegExp.Chr "/") r))
              (String c s) = false.
Proof.
  intros Hc. unfold RegExp.test.
  assert (Ascii.eqb "/" c = false) as E by (by apply Ascii.eqb_neq).
  cbn -[Ascii.eqb]. rewrite E. apply search_anchored_later.
Qed.

(** The serialized URL starts with the scheme. *)
Lemma href_starts_with_h (u : URL.t) : ∃ s, URL.href u = String "h" s.
Proof. destruct u as [[] h p q f]; eexists; reflexivity. Qed.

End Classifier.

(** C8. When the configured whitelist is the empty list, the classifier
    answers not-eligible for every request: [every] over no element holds. *)
Theorem empty_whitelist_rejects_all (P : Prerenderer) (req : Request) :
  _whitelist P = Some [] →
  shouldShowPrerenderedPage P req = Ok false.
Proof.
  intros Hwl.
  destruct (classifier_reaches_whitelist P req) as [H|(k & H & Hk)]; [done|].
  rewrite H, Hwl. exact Hk.
Qed.

(** The request of the witness is eligible as long as no whitelist is set. *)
Lemma empty_whitelist_rejects_all_witness :
  shouldShowPrerenderedPage defaultPrerenderer (crawler_get "/products/42")
    = Ok true
  ∧ shouldShowPrerenderedPage (with_whitelist []) (crawler_get "/products/42")
    = Ok false.
Proof.
  split; [vm_compute; reflexivity|].
  apply (empty_whitelist_rejects_all (with_whitelist []) (crawler_get "/products/42")).
  reflexivity.
Defined.

(** C3, as stated, fails: the crawler request to [/public/x] is rejected by
    the whitelist [["^/public/"]] as well. *)
Lemma whitelist_example_counterexample : ¬ whitelist_example_as_stated.
Proof. intros [_ H]. vm_compute in H. discriminate H. Qed.

(** C3, amended. Under the whitelist [["^/public/"]] neither the request to
    [/private/x] nor the one to [/public/x] is eligible: a pattern is tested
    against the full URL, which starts with the scheme, so a pattern
    anchored at a slash passes no request at all. *)
Theorem anchored_path_whitelist_rejects_all (P : Prerenderer) (req : Request) :
  _whitelist P = Some ["^/public/"] →
  shouldShowPrerenderedPage P req = Ok false.
Proof.
  intros Hwl.
  destruct (classifier_reaches_whitelist P req) as [H|(k & H & Hk)]; [done|].
  rewrite H, Hwl. clear H.
  destruct (href_starts_with_h (url req)) as [s ->].
  assert (∃ r, RegExp.compile "^/public/"
               = Ok (RegExp.Seq RegExp.Bol (RegExp.Seq (RegExp.Chr "/") r)))
    as [r Hr] by (eexists; vm_compute; reflexivity).
  cbn [every]. rewrite Hr. cbn [mbind result_bind mret result_ret].
  rewrite test_anchored_slash by done. exact Hk.
Qed.

Lemma anchored_path_whitelist_rejects_all_witness :
  shouldShowPrerenderedPage (with_whitelist ["^/public/"])
    (crawler_get "/private/x") = Ok false
  ∧ shouldShowPrerenderedPage (with_whitelist ["^/public/"])
      (crawler_get "/public/x") = Ok false.
Proof.
  split.
  - apply (anchored_path_whitelist_rejects_all
             (with_whitelist ["^/public/"]) (crawler_get "/private/x")).
    reflexivity.
  - apply (anchored_path_whitelist_rejects_all
             (with_whitelist ["^/public/"]) (crawler_get "/public/x")).
    reflexivity.
Defined.

(** The unanchored pattern does what the example is after. *)
Example unanchored_whitelist :
  shouldShowPrerenderedPage (with_whitelist ["/public/"])
    (crawler_get "/private/x") = Ok false
  ∧ shouldShowPrerenderedPage (with_whitelist ["/public/"])
      (crawler_get "/public/x") = Ok true.
Proof. split; vm_compute; reflexivity. Qed.

(** ** The upstream URL *)

Lemma length_snoc_slash (base : string) :
  String.length (base ++ "/") = S (String.length base).
Proof. induction base as [|c base IH]; [reflexivity|]. simpl. by rewrite IH. Qed.

(** The probe [indexOf('/', length - 1)] finds the slash that ends a base. *)
Lemma ends_with_slash_found (base : string) :
  JsString.includes_from "/" (String.length (base ++ "/") - 1) (base ++ "/")
  = true.
Proof.
  unfold JsString.includes_from.
  assert (∃ n, String.index (String.length (base ++ "/") - 1) "/" (base ++ "/")
               = Some n) as [n ->]; [|done].
  induction base as [|c base IH]; [by eexists|].
  destruct IH as [n IH].
  rewrite length_snoc_slash in *. simpl in *.
  rewrite Nat.sub_0_r in *. rewrite IH. eauto.
Qed.

(** C9. For the base ["http://svc"] and a request with path [/a], query
    [?b=1] and [x-forwarded-host: host], [buildApiUrl] returns
    ["http://svc/https://host/a?b=1"]: the base does not end in a slash, so
    one is inserted; after a base that ends in a slash none is. *)
Theorem buildApiUrl_example (m : string) (u : URL.t) :
  buildApiUrl (with_serviceUrl "http://svc") (forwarded_request m u)
    = Ok "http://svc/https://host/a?b=1"
  ∧ ∀ base,
      buildApiUrl (with_serviceUrl (base ++ "/")) (forwarded_request m u)
      = Ok ((base ++ "/") ++ "https://host/a?b=1").
Proof.
  split; [reflexivity|].
  intros base. unfold buildApiUrl.
  cbn [prerenderServiceUrl with_serviceUrl].
  rewrite ends_with_slash_found. reflexivity.
Qed.

(** ** The handler monad *)

Section Monad.

Context {A B : Type}.

Lemma run_bind (m : M A) (k : A → M B) h :
  (m ≫= k) h =
    match m h with
    | ((h1, t1), Ok a) => let '((h2, t2), r) := k a h1 in ((h2, app t1 t2), r)
    | ((h1, t1), Throw e) => ((h1, t1), Throw e)
    end.
Proof. reflexivity. Qed.

Lemma bind_ok (m : M A) (k : A → M B) h h1 t1 a :
  m h = ((h1, t1), Ok a) →
  (m ≫= k) h = let '((h2, t2), r) := k a h1 in ((h2, app t1 t2), r).
Proof. intros H. by rewrite run_bind, H. Qed.

Lemma silent_bind (m : M A) (k : A → M B) :
  silent m → (∀ a, silent (k a)) → silent (m ≫= k).
Proof.
  intros Hm Hk h. rewrite run_bind. specialize (Hm h).
  destruct (m h) as [[h1 t1] [a|e]]; simpl in *; subst; [|done].
  specialize (Hk a h1). destruct (k a h1) as [[h2 t2] r]; simpl in *.
  by subst.
Qed.

(** Case analysis on a silent first step. *)
Lemma bind_silent_cases (m : M A) (k : A → M B)
  (Post : heap * list Event * result B → Prop) h :
  silent m →
  (∀ h1 e, Post ((h1, []), Throw e)) →
  (∀ h1 a, Post (k a h1)) →
  Post ((m ≫= k) h).
Proof.
  intros Hm Ht Hk. rewrite run_bind. specialize (Hm h).
  destruct (m h) as [[h1 t1] [a|e]]; simpl in *; subst; [|apply Ht].
  specialize (Hk h1 a). by destruct (k a h1) as [[h2 t2] r].
Qed.

Lemma silent_ret (a : A) : silent (mret a).
Proof. by intros h. Qed.

Lemma silent_lift (r : result A) : silent (lift r).
Proof. by intros h. Qed.

Lemma silent_throw (e : Error) : silent (throw (A := A) e).
Proof. by intros h. Qed.

End Monad.

Lemma silent_forEach {A} (l : list A) (f : A → M unit) :
  (∀ x, silent (f x)) → silent (forEach l f).
Proof.
  intros Hf. induction l as [|x l IH]; [apply silent_ret|].
  cbn [forEach]. apply silent_bind; auto.
Qed.

Lemma silent_new_object o : silent (new_object o).
Proof. by intros h. Qed.

Lemma silent_set_prop l k v : silent (set_prop l k v).
Proof. by intros h. Qed.

Lemma silent_assign1 target source : silent (assign1 target source).
Proof. by intros h. Qed.

Create HintDb silent discriminated.

#[local] Hint Resolve silent_ret silent_lift silent_throw silent_new_object
  silent_set_prop silent_assign1 : silent.
#[local] Hint Extern 2 (silent (_ ≫= _)) =>
  apply silent_bind; [|intros ?] : silent.
#[local] Hint Extern 2 (silent (if ?b then _ else _)) => destruct b : silent.
#[local] Hint Extern 2 (silent (match ?x with _ => _ end)) =>
  destruct x : silent.

Lemma silent_Object_assign target sources :
  silent (Object_assign target sources).
Proof.
  induction sources as [|s rest IH]; cbn [Object_assign]; auto with silent.
Qed.

Lemma silent_Headers_forEach hs cb :
  (∀ v name, silent (cb v name)) → silent (Headers_forEach hs cb).
Proof. intros H. apply silent_forEach. by intros [name v]. Qed.

Lemma silent_json_props kvs : silent (json_props kvs).
Proof.
  induction kvs as [|[k v] rest IH]; cbn [json_props]; [auto with silent|].
  apply silent_bind; [destruct v; cbn [json_value]; auto with silent|].
  intros v'. auto with silent.
Qed.

Lemma silent_json_clone options : silent (json_clone options).
Proof.
  unfold json_clone. apply silent_bind; [apply silent_json_props|].
  auto with silent.
Qed.

#[local] Hint Resolve silent_Object_assign silent_json_clone : silent.
#[local] Hint Extern 1 (silent (Headers_forEach _ _)) =>
  apply silent_Headers_forEach; intros ? ? : silent.

(** ** The retriever *)

Lemma read_object_snoc (h : heap) (o : object) :
  read_object (app h [o]) (List.length h) = o.
Proof. unfold read_object. by rewrite list_lookup_middle. Qed.

Lemma read_object_alter_eq (h : heap) (f : object → object) (l : loc) :
  (l < List.length h)%nat →
  read_object (alter f l h) l = f (read_object h l).
Proof.
  intros Hl. unfold read_object. rewrite list_lookup_alter_eq.
  destruct (lookup_lt_is_Some_2 h l Hl) as [o Ho]. by rewrite Ho.
Qed.

Lemma read_object_alter_ne (h : heap) (f : object → object) (l l' : loc) :
  l ≠ l' → read_object (alter f l h) l' = read_object h l'.
Proof. intros Hl. unfold read_object. by rewrite list_lookup_alter_ne. Qed.

(** [Object.assign({}, options, { method: 'GET' })] has method [GET],
    whatever [options] holds. *)
Lemma fetch_init_has_method (options : loc) (h : heap) :
  ∃ h1 init,
    (target ← new_object ∅;
     fixed ← new_object {[ "method" := str "GET" ]};
     Object_assign target [options; fixed]) h = ((h1, []), Ok init)
    ∧ snapshot h1 init !! "method" = Some GET.
Proof.
  eexists _, _. split; [reflexivity|].
  unfold snapshot. rewrite lookup_fmap.
  rewrite read_object_alter_eq by (rewrite length_alter, !length_app; simpl; lia).
  rewrite read_object_alter_ne by (rewrite length_app; simpl; lia).
  rewrite read_object_snoc.
  rewrite (lookup_union_Some_l _ _ _ (str "GET")); [reflexivity|].
  apply lookup_singleton_eq.
Qed.

Ltac silent_step :=
  apply bind_silent_cases;
  [ auto 10 with silent | intros ? ?; left; eauto | intros ? ? ].

(** The two ways a retrieval can go. *)
Lemma retrieval_cases (P : Prerenderer) (W : World) (ctx : Context) (h : heap) :
  let res := getPrerenderedPageResponse P W ctx h in
  (∃ msg,
     res.1.2 = [ConsoleInfo ["invoking prerender server"];
                ConsoleInfo ["Error in prerender server"; msg]]
     ∧ res.2 = Ok {| rr_error := Some msg; rr_body := None |})
  ∨ (∃ u init,
       init !! "method" = Some GET
       ∧ match (response ← fetch W u init; text response) with
         | Ok body =>
             res.1.2 = [ConsoleInfo ["invoking prerender server"];
                        FetchCalled u init]
             ∧ res.2 = Ok {| rr_error := None; rr_body := Some body |}
         | Throw e =>
             res.1.2 = [ConsoleInfo ["invoking prerender server"];
                        FetchCalled u init;
                        ConsoleInfo ["Error in prerender server"; message e]]
             ∧ res.2 = Ok {| rr_error := Some (message e); rr_body := None |}
         end).
Proof.
  cbv zeta. unfold getPrerenderedPageResponse.
  rewrite run_bind. cbn [console_info emit]. unfold try_catch.
  match goal with |- context [ match ?b h with _ => _ end ] =>
    assert (try_block_post W (b h)) as Hpost end.
  { cbv zeta. do 11 silent_step.
    lazymatch goal with
    | |- try_block_post _ (mbind (λ init, await_fetch _ ?u init ≫= _) _ ?h0) =>
        lazymatch goal with
        | |- context [Object_assign _ [?options; _]] =>
            destruct (fetch_init_has_method options h0)
              as (h' & init & Hinit & Hget);
            rewrite (bind_ok _ _ _ _ _ _ Hinit), run_bind; unfold await_fetch;
            right; exists u, (snapshot h' init); split; [exact Hget|];
            destruct (fetch W u (snapshot h' init)) as [response|e];
              [|by split]
        end
    end.
    rewrite run_bind. unfold lift. cbn [mbind result_bind].
    destruct (text response) as [body|e]; split; reflexivity. }
  match goal with |- context [ match ?b h with _ => _ end ] =>
    destruct (b h) as [[h1 t1] r] end.
  destruct Hpost as [[Ht [e He]]|(u & init & Hget & Ht & Hr)];
    cbn [fst snd] in *; subst.
  - left. by exists (message e).
  - right. exists u, init. split; [exact Hget|].
    destruct (fetch W u init) as [response|e]; [|by split].
    cbn [mbind result_bind]. destruct (text response) as [body|e]; by split.
Qed.

(** Which call an event of a short trace is. *)
Ltac which_call H :=
  repeat (apply elem_of_cons in H as [H|H]);
  try discriminate H; try (by apply elem_of_nil in H);
  try (injection H as -> ->).

Lemma fetch_logged_here u init a (rest : list Event) :
  FetchCalled u init ∈ ConsoleInfo a :: FetchCalled u init :: rest.
Proof. rewrite !elem_of_cons. auto. Qed.

(** C7. The retriever never throws: whatever the configuration, the request
    and the host, it returns a result. If a call went out and the call or
    the read of the body failed, the result carries the failure's message
    and no body; if a response came back and its body was read, the result
    carries that body and no error, whatever the response's status. If no
    call went out, a failure before the call was caught in the same way. *)
Theorem retrieval_never_throws (P : Prerenderer) (W : World) (ctx : Context)
  (h : heap) :
  ∃ rr,
    (getPrerenderedPageResponse P W ctx h).2 = Ok rr
    ∧ (∀ u init,
         FetchCalled u init ∈ (getPrerenderedPageResponse P W ctx h).1.2 →
         match fetch W u init with
         | Throw e => rr = {| rr_error := Some (message e); rr_body := None |}
         | Ok response =>
             match text response with
             | Ok body => rr = {| rr_error := None; rr_body := Some body |}
             | Throw e =>
                 rr = {| rr_error := Some (message e); rr_body := None |}
             end
         end)
    ∧ ((∀ u init,
          FetchCalled u init ∉ (getPrerenderedPageResponse P W ctx h).1.2) →
       ∃ msg, rr = {| rr_error := Some msg; rr_body := None |}).
Proof.
  destruct (retrieval_cases P W ctx h)
    as [(msg & Ht & Hr)|(u0 & init0 & _ & Hcase)]; cbv zeta in *.
  - exists {| rr_error := Some msg; rr_body := None |}.
    rewrite Ht, Hr. split_and!; [done| |by eauto].
    intros u init Hin. which_call Hin.
  - destruct (fetch W u0 init0) as [response|e] eqn:Hfetch;
      cbn [mbind result_bind] in Hcase;
      [destruct (text response) as [body|e] eqn:Htext|];
      destruct Hcase as [Ht Hr]; rewrite Ht, Hr;
      eexists; (split_and!; [reflexivity| |]).
    + intros u init Hin.
      which_call Hin.
      by rewrite Hfetch, Htext.
    + intros Hno. exfalso. apply (Hno u0 init0), fetch_logged_here.
    + intros u init Hin.
      which_call Hin.
      by rewrite Hfetch, Htext.
    + intros Hno. exfalso. apply (Hno u0 init0), fetch_logged_here.
    + intros u init Hin.
      which_call Hin.
      by rewrite Hfetch.
    + intros Hno. exfalso. apply (Hno u0 init0), fetch_logged_here.
Qed.

(** C10. Every call the retriever makes to the rendering backend has method
    [GET], whatever the extra options of the configuration say. *)
Theorem outbound_method_is_get (P : Prerenderer) (W : World) (ctx : Context)
  (h : heap) :
  Forall (λ init, init !! "method" = Some GET)
    (fetch_inits (getPrerenderedPageResponse P W ctx h).1.2).
Proof.
  destruct (retrieval_cases P W ctx h)
    as [(msg & Ht & Hr)|(u0 & init0 & Hget & Hcase)]; cbv zeta in *.
  - rewrite Ht. constructor.
  - destruct (fetch W u0 init0 ≫= _) as [body|e]; destruct Hcase as [-> _];
      cbn; by repeat constructor.
Qed.

(** A configured [method: "POST"] is overridden: the one call goes out as
    a [GET]. *)
Example outbound_method_override :
  ∃ init,
    fetch_inits (trace_of (getPrerenderedPageResponse with_method_post
                             backend_up (mkContext (crawler_get "/")))) = [init]
    ∧ init !! "method" = Some GET.
Proof. eexists. split; vm_compute; reflexivity. Qed.

(** C1 fails when the extra options carry a [headers] dictionary: the
    retriever keeps writing the always-set headers to the object it created
    first, while the option bag now refers to the copy of the configured
    dictionary. The call goes out with the configured headers alone: the
    configured [User-Agent] instead of the request's, no [Accept-Encoding]
    and no token. *)
Theorem configured_headers_replace_always_set :
  ∃ init,
    fetch_inits (trace_of (getPrerenderedPageResponse with_extra_headers
                             backend_up (mkContext (crawler_get "/")))) = [init]
    ∧ outbound_headers init = Some {[ "User-Agent" := PStr "custom-agent" ]}.
Proof. eexists. split; vm_compute; reflexivity. Qed.

(** C2 fails: the callback of [forEach] receives the value of a header
    first, and the retriever uses it as the header's name. The forwarded
    entries are keyed by the incoming values, hold [null], and the entry for
    the value of [host] is among them. *)
Theorem forwarded_headers_keyed_by_value :
  ∃ init,
    fetch_inits (trace_of (getPrerenderedPageResponse with_forwardHeaders
                             backend_up (mkContext traced_get))) = [init]
    ∧ outbound_headers init
      = Some {[ "example.com" := PNull; "googlebot" := PNull; "abc" := PNull;
                "User-Agent" := PStr "googlebot";
                "Accept-Encoding" := PStr "gzip" ]}.
Proof. eexists. split; vm_compute; reflexivity. Qed.

(** With the user-agent of a real crawler the forwarding loop throws, since
    that value is not a header name; no call goes out at all. *)
Example forwarded_headers_real_crawler :
  fetch_inits (trace_of (getPrerenderedPageResponse with_forwardHeaders
                           backend_up (mkContext (crawler_get "/")))) = []
  ∧ ∃ msg,
      outcome_of (getPrerenderedPageResponse with_forwardHeaders
                    backend_up (mkContext (crawler_get "/")))
      = Ok {| rr_error := Some msg; rr_body := None |}.
Proof. split; [|eexists]; vm_compute; reflexivity. Qed.

(** Without a [headers] dictionary in the extra options the always-set
    headers do reach the call. *)
Example always_set_headers_default :
  ∃ init,
    fetch_inits (trace_of (getPrerenderedPageResponse with_forwardHeaders
                             backend_up (mkContext (mkRequest "GET"
                               (URL.mk URL.https "example.com" "/" None None)
                               [("user-agent", "googlebot")])))) = [init]
    ∧ outbound_headers init
      = Some {[ "googlebot" := PNull;
                "User-Agent" := PStr "googlebot";
                "Accept-Encoding" := PStr "gzip" ]}.
Proof. eexists. split; vm_compute; reflexivity. Qed.

(** *** The header object when no [headers] entry is configured *)

Lemma nonempty_spec s : JsString.nonempty s = true ↔ s ≠ EmptyString.
Proof. destruct s; simpl; split; congruence. Qed.

Lemma read_object_app_l (h extra : heap) (l : loc) :
  (l < List.length h)%nat → read_object (app h extra) l = read_object h l.
Proof. intros Hl. unfold read_object. by rewrite lookup_app_l. Qed.

(** A known silent first step. *)
Lemma bind_det {A B} (m : M A) (k : A → M B)
  (Post : heap * list Event * result B → Prop) h h1 a :
  m h = ((h1, []), Ok a) → Post (k a h1) → Post ((m ≫= k) h).
Proof.
  intros Hm Hk. rewrite run_bind, Hm. by destruct (k a h1) as [[h2 t2] r].
Qed.

(** A silent first step that keeps an invariant of the heap. *)
Lemma bind_inv {A B} (m : M A) (k : A → M B) (Inv : heap → Prop)
  (Post : heap * list Event * result B → Prop) h :
  silent m → Inv (m h).1.1 →
  (∀ h1 e, Post ((h1, []), Throw e)) →
  (∀ h1 a, Inv h1 → Post (k a h1)) →
  Post ((m ≫= k) h).
Proof.
  intros Hm Hinv Ht Hk. rewrite run_bind. specialize (Hm h).
  destruct (m h) as [[h1 t1] [a|e]]; simpl in *; subst; [|apply Ht].
  specialize (Hk h1 a Hinv). by destruct (k a h1) as [[h2 t2] r].
Qed.

Lemma forEach_inv {A} (l : list A) (f : A → M unit) (Inv : heap → Prop) :
  (∀ x h, Inv h → Inv (f x h).1.1) →
  ∀ h, Inv h → Inv (forEach l f h).1.1.
Proof.
  intros Hf. induction l as [|x l IH]; intros h Hh; [done|].
  cbn [forEach]. rewrite run_bind. specialize (Hf x h Hh).
  destruct (f x h) as [[h1 t1] [[]|e]]; [|done].
  specialize (IH h1 Hf). by destruct (forEach l f h1) as [[h2 t2] r].
Qed.

(** The copy of the option bag is appended to the heap, and has the keys of
    the bag. *)
Lemma json_props_spec kvs (h : heap) :
  ∃ extra props,
    json_props kvs h = ((app h extra, []), Ok props) ∧ props.*1 = kvs.*1.
Proof.
  revert h. induction kvs as [|[k v] rest IH]; intros h.
  - exists [], []. cbn. by rewrite app_nil_r.
  - cbn [json_props]. rewrite run_bind.
    assert (∃ extra0 v', json_value v h = ((app h extra0, []), Ok v'))
      as (extra0 & v' & ->).
    { destruct v; [exists [], (VPrim (PBool b))|exists [], (VPrim (PNum n))
                  |exists [], (str s)|eexists [_], _];
        cbn; rewrite ?app_nil_r; reflexivity. }
    destruct (IH (app h extra0)) as (extra & props & Hrest & Hkeys).
    rewrite run_bind, Hrest. exists (app extra0 extra), ((k, v') :: props).
    cbn. rewrite app_assoc, Hkeys. done.
Qed.

Lemma json_clone_spec (options : PrerenderOptions) (h : heap) :
  ∃ extra o,
    json_clone options h
    = ((app (app h extra) [o], []), Ok (List.length (app h extra)))
    ∧ ∀ k, options !! k = None → o !! k = None.
Proof.
  unfold json_clone.
  destruct (json_props_spec (map_to_list options) h)
    as (extra & props & Hprops & Hkeys).
  exists extra, (list_to_map props). split.
  - rewrite run_bind, Hprops. reflexivity.
  - intros k Hk. apply not_elem_of_list_to_map_1. rewrite Hkeys.
    intros ((k' & v) & -> & Hin)%list_elem_of_fmap.
    apply elem_of_map_to_list in Hin. cbn in Hk. congruence.
Qed.

Lemma bind_lift {A B} (r : result A) (k : A → M B)
  (Post : heap * list Event * result B → Prop) h :
  (∀ e, r = Throw e → Post ((h, []), Throw e)) →
  (∀ a, r = Ok a → Post (k a h)) →
  Post ((lift r ≫= k) h).
Proof.
  intros Ht Hk. rewrite run_bind. unfold lift.
  destruct r as [a|e]; [|by apply Ht].
  specialize (Hk a eq_refl). by destruct (k a h) as [[h2 t2] r].
Qed.

Lemma read_object_bag (h extra : heap) (bag o : object) :
  read_object (app (app (app (app h [∅]) [bag]) extra) [o])
    (List.length (app h [∅])) = bag.
Proof.
  unfold read_object. rewrite <- !app_assoc, (app_assoc h). cbn [app].
  by rewrite list_lookup_middle.
Qed.

Lemma set_prop_inv hd opts k v h :
  bag_inv hd opts h → bag_inv hd opts (alter (insert k v) hd h).
Proof.
  intros (Hhd & Hopts & Hne & Hbag). unfold bag_inv.
  rewrite length_alter, read_object_alter_ne by done. done.
Qed.

Lemma read_set_prop hd k v (h : heap) :
  (hd < List.length h)%nat →
  read_object (alter (insert k v) hd h) hd = <[k:=v]> (read_object h hd).
Proof. apply read_object_alter_eq. Qed.

Lemma forward_loop_inv hd opts (hs : Headers.t) h :
  bag_inv hd opts h →
  bag_inv hd opts
    (Headers_forEach hs (λ h0 _ : string,
       if String.eqb h0 "host" then mret ()
       else v ← lift (Headers.get hs h0); set_prop hd h0 (str_or_null v)) h).1.1.
Proof.
  apply forEach_inv. intros [name v] h1 Hinv.
  destruct (String.eqb v "host"); [done|].
  rewrite run_bind. unfold lift. destruct (Headers.get hs v); [|done].
  cbn. by apply set_prop_inv.
Qed.

Lemma fetch_init_headers (hd opts : loc) (h : heap) :
  bag_inv hd opts h →
  ∃ h1 init,
    (target ← new_object ∅;
     fixed ← new_object {[ "method" := str "GET" ]};
     Object_assign target [opts; fixed]) h = ((h1, []), Ok init)
    ∧ snapshot h1 init !! "headers" = Some (IObj (flat (read_object h hd))).
Proof.
  intros (Hhd & Hopts & Hne & Hbag).
  eexists _, _. split; [reflexivity|].
  unfold snapshot. rewrite lookup_fmap.
  rewrite read_object_alter_eq by (rewrite length_alter, !length_app; simpl; lia).
  rewrite read_object_alter_ne by (rewrite length_app; simpl; lia).
  rewrite read_object_snoc.
  rewrite lookup_union_r by done.
  rewrite read_object_alter_eq by (rewrite !length_app; simpl; lia).
  rewrite <- !app_assoc.
  rewrite (read_object_app_l h _ opts) by lia.
  rewrite (lookup_union_Some_l _ _ _ _ Hbag). cbn.
  rewrite !read_object_alter_ne by lia.
  rewrite (read_object_app_l h _ hd) by lia. done.
Qed.

Lemma flat_lookup (o : object) k p :
  o !! k = Some (VPrim p) → flat o !! k = Some p.
Proof. intros H. unfold flat. by rewrite lookup_omap, H. Qed.

Lemma str_or_null_prim o : str_or_null o = VPrim (prim_or_null o).
Proof. by destruct o. Qed.

(** The call itself, once the header object is complete. *)
Lemma call_with_headers (P : Prerenderer) (req : Request) (W : World)
  (u : URL.t) (hd opts : loc) (h : heap)
  (k : Response → M RetrievalResult) :
  (∀ response, silent (k response)) →
  bag_inv hd opts h →
  read_object h hd !! "User-Agent"
    = Some (str_or_null (Headers.combined (headers req) "user-agent")) →
  read_object h hd !! "Accept-Encoding" = Some (str "gzip") →
  (prerenderToken P ≠ EmptyString →
   read_object h hd !! "X-Prerender-Token" = Some (str (prerenderToken P))) →
  headers_post P req
    ((init ← (target ← new_object ∅;
              fixed ← new_object {[ "method" := str "GET" ]};
              Object_assign target [opts; fixed]);
      response ← await_fetch W u init; k response) h).
Proof.
  intros Hk Hinv Hua Hae Htok.
  destruct (fetch_init_headers hd opts h Hinv) as (h1 & init & Hinit & Hhd).
  eapply bind_det; [exact Hinit|].
  rewrite run_bind. unfold await_fetch. right.
  exists u, (snapshot h1 init). split.
  - destruct (fetch W u (snapshot h1 init)) as [response|e]; [|done].
    specialize (Hk response h1).
    destruct (k response h1) as [[h2 t2] r]. cbn in *. by subst.
  - exists (flat (read_object h hd)). unfold outbound_headers. rewrite Hhd.
    rewrite str_or_null_prim in Hua.
    split_and!; [done|by apply flat_lookup..|].
    intros Hne. by apply flat_lookup, Htok.
Qed.

Theorem always_set_headers_without_configured (P : Prerenderer) (W : World)
  (ctx : Context) (h : heap) :
  prerenderServerRequestOptions P !! "headers" = None →
  Forall (always_set P (request ctx))
    (fetch_inits (getPrerenderedPageResponse P W ctx h).1.2).
Proof.
  intros Hcfg.
  unfold getPrerenderedPageResponse.
  rewrite run_bind. cbn [console_info emit]. unfold try_catch.
  match goal with |- context [ match ?b h with _ => _ end ] =>
    assert (headers_post P (request ctx) (b h)) as Hpost end.
  { cbv zeta.
    eapply bind_det; [reflexivity|].
    eapply bind_det; [reflexivity|].
    match goal with |- headers_post _ _ ((json_clone ?c ≫= _) ?h0) =>
      destruct (json_clone_spec c h0) as (extra & copyobj & Hclone & Hkeys) end.
    eapply bind_det; [exact Hclone|].
    eapply bind_det; [reflexivity|].
    match goal with |- headers_post _ _ (_ ?h4) =>
      assert (bag_inv (List.length h) (List.length (app h [∅])) h4) as Hinv;
      [|clear Hclone; revert Hinv; generalize h4; intros h5 Hinv]
    end.
    { unfold bag_inv. split_and!.
      - rewrite length_alter, !length_app. cbn. lia.
      - rewrite length_alter, !length_app. cbn. lia.
      - rewrite length_app. cbn. lia.
      - rewrite read_object_alter_eq by (rewrite !length_app; cbn; lia).
        rewrite read_object_snoc, read_object_bag.
        rewrite lookup_union_r by auto. apply lookup_singleton_eq. }
    eapply (bind_inv _ _ (bag_inv (List.length h) (List.length (app h [∅]))));
      [auto 10 with silent| |intros ? ?; left; eauto|clear dependent h5; intros h5 _ Hinv].
    { destruct (forwardHeaders P); [by apply forward_loop_inv|done]. }
    apply bind_lift; [intros ? ?; left; eauto|intros userAgent Hua].
    rewrite get_token in Hua by reflexivity. injection Hua as <-.
    eapply bind_det; [reflexivity|].
    eapply bind_det; [reflexivity|].
    pose proof Hinv as (Hhd & _).
    destruct (JsString.nonempty (prerenderToken P)) eqn:Htoken;
      (eapply bind_det; [reflexivity|]);
      (apply bind_lift; [intros ? ?; left; eauto|intros apiUrl _]);
      (apply bind_lift; [intros ? ?; left; eauto|intros u _]);
      apply (call_with_headers _ _ _ _ (List.length h));
      try (intros ?; auto 10 with silent);
      repeat apply set_prop_inv; try done;
      rewrite ?read_set_prop by (by rewrite ?length_alter);
      try (exfalso;
           match goal with
           | Hne : prerenderToken P ≠ _ |- _ =>
               apply nonempty_spec in Hne; congruence
           end);
      rewrite ?lookup_insert_eq, ?(lookup_insert_ne _ "X-Prerender-Token") by done;
      rewrite ?lookup_insert_eq, ?(lookup_insert_ne _ "Accept-Encoding") by done;
      rewrite ?lookup_insert_eq; reflexivity. }
  match goal with |- context [ match ?b h with _ => _ end ] =>
    destruct (b h) as [[h1 t1] r] end.
  destruct Hpost as [[Ht [e He]]|(u & init & Ht & Hgood)];
    cbn [fst snd] in *; subst.
  - cbn. constructor.
  - destruct r; cbn; by repeat constructor.
Qed.

(** ** The orchestrator *)

Lemma miss_test (co : CacheOutcome) :
  JsString.truthy (co_error co) = true ∨ co_body co = EmptyString →
  negb (JsString.truthy (co_error co)) && JsString.nonempty (co_body co)
  = false.
Proof. intros [->| ->]; [done|]. by rewrite andb_false_r. Qed.

(** The trace of a sequence starts with the trace of its first step. *)
Lemma bind_trace_prefix {A B} (m : M A) (k : A → M B) h :
  ∃ rest, ((m ≫= k) h).1.2 = app (m h).1.2 rest.
Proof.
  rewrite run_bind. destruct (m h) as [[h1 t1] [a|e]].
  - destruct (k a h1) as [[h2 t2] r]. by exists t2.
  - exists []. cbn. by rewrite app_nil_r.
Qed.

(** The retriever never hands over to the continuation. *)
Lemma retrieval_keeps_control (P : Prerenderer) (W : World) (ctx : Context)
  (h : heap) :
  NextCalled ∉ (getPrerenderedPageResponse P W ctx h).1.2.
Proof.
  intros Hin.
  destruct (retrieval_cases P W ctx h)
    as [(msg & Ht & _)|(u & init & _ & Hcase)]; cbv zeta in *.
  - rewrite Ht in Hin. which_call Hin.
  - destruct (fetch W u init ≫= _); destruct Hcase as [Ht _];
      rewrite Ht in Hin; which_call Hin.
Qed.

(** Reduction of the matches and lets that a known step leaves behind. *)
Ltac reduce :=
  cbn beta iota zeta delta
    [app fst snd mret M_ret fmap M_fmap negb andb default from_option id
     cancelRender].

Ltac run_step :=
  first
    [ rewrite run_bind
    | progress unfold lift, console_info, emit, await_resolveCache,
        await_writeCache, await_next, throw
    | progress reduce ].

Ltac run := repeat run_step.

(** C6. For an eligible request and a configured read hook that resolves:
    when the result has no error (the test of the source, [!error]: the
    error is absent or empty) and a non-empty body, the handler returns that
    body and the only events are the two of the cache read, so neither the
    retriever nor the write hook runs; otherwise the retriever runs right
    after the read. *)
Theorem cache_hit_short_circuits (P : Prerenderer) (W : World) (ctx : Context)
  (resolveCache : CacheReadFunction) (co : CacheOutcome) :
  shouldShowPrerenderedPage P (request ctx) = Ok true →
  _resolveCache P = Some resolveCache →
  resolveCache (request ctx) = Ok co →
  (JsString.truthy (co_error co) = false → co_body co ≠ EmptyString →
   outcome_of (prerender P W ctx) = Ok (Body (Some (co_body co)))
   ∧ trace_of (prerender P W ctx)
     = [ConsoleInfo ["trying to resolve cache"];
        ResolveCacheCalled (request ctx)])
  ∧ (JsString.truthy (co_error co) = true ∨ co_body co = EmptyString →
     ∃ rest,
       trace_of (prerender P W ctx)
       = app [ConsoleInfo ["trying to resolve cache"];
              ResolveCacheCalled (request ctx)]
             (app (trace_of (getPrerenderedPageResponse P W ctx)) rest)).
Proof.
  intros Helig Hhook Hread.
  unfold trace_of, outcome_of, prerender.
  run. rewrite Helig. run. rewrite Hhook. run. rewrite Hread. run.
  split.
  - intros Herr Hbody%nonempty_spec. rewrite Herr, Hbody. run. done.
  - intros Hmiss. rewrite (miss_test co Hmiss). reduce.
    match goal with |- context [(?m ≫= ?k) []] =>
      destruct (bind_trace_prefix m k []) as [rest Hrest];
      destruct ((m ≫= k) []) as [[h2 t2] r] end.
    cbn [fst snd] in *. exists rest. by rewrite Hrest.
Qed.

Lemma cache_hit_short_circuits_witness :
  outcome_of (prerender (with_hooks (Some cache_full) (Some storing_hook))
                backend_up (mkContext (crawler_get "/products/42")))
  = Ok (Body (Some "<html>cached</html>"))
  ∧ trace_of (prerender (with_hooks (Some cache_full) (Some storing_hook))
                backend_up (mkContext (crawler_get "/products/42")))
    = [ConsoleInfo ["trying to resolve cache"];
       ResolveCacheCalled (crawler_get "/products/42")].
Proof.
  apply (cache_hit_short_circuits
           (with_hooks (Some cache_full) (Some storing_hook)) backend_up
           (mkContext (crawler_get "/products/42")) cache_full
           {| co_body := "<html>cached</html>"; co_error := None |});
    [vm_compute; reflexivity|reflexivity|reflexivity|reflexivity|discriminate].
Defined.

(** The handler up to the write hook, for a request that reaches the
    retrieval. *)
Ltac run_to_retrieval Helig Hmiss Eret :=
  unfold trace_of, outcome_of, prerender, read_events in *;
  run; rewrite Helig; run;
  destruct (_resolveCache _) as [resolveCache|];
  [ destruct Hmiss as (co & Hread & Hmiss);
    run; rewrite Hread; run; rewrite (miss_test co Hmiss); run
  | run ];
  rewrite Eret; run.

(** C4. For a request that reaches the retrieval, when the write hook
    resolves to [{ cancelRender: true }] the handler ends by calling the
    continuation and resolves to what the continuation does: it returns no
    body and throws no error of its own, also when the retrieval produced
    an error. *)
Theorem cancelRender_delegates (P : Prerenderer) (W : World) (ctx : Context)
  (writeCache : CacheWriteFunction) (rr : RetrievalResult) :
  reaches_retrieval P (request ctx) →
  outcome_of (getPrerenderedPageResponse P W ctx) = Ok rr →
  _writeCache P = Some writeCache →
  writeCache (request ctx) (rr_error rr) (rr_body rr)
    = Ok (Some {| cancelRender := true |}) →
  outcome_of (prerender P W ctx) = FromNext <$> next W
  ∧ trace_of (prerender P W ctx)
    = app (read_events P (request ctx))
        (app (trace_of (getPrerenderedPageResponse P W ctx))
           [WriteCacheCalled (request ctx) (rr_error rr) (rr_body rr);
            NextCalled]).
Proof.
  intros [Helig Hmiss] Hret Hhook Hcancel.
  unfold outcome_of in Hret.
  destruct (getPrerenderedPageResponse P W ctx []) as [[h1 t1] r] eqn:Eret.
  cbn [snd] in Hret. subst r.
  run_to_retrieval Helig Hmiss Eret;
    rewrite Hhook; run; rewrite Hcancel; run;
    (split; [by destruct (next W)|]).
  - by destruct (next W); rewrite <- ?app_assoc.
  - by destruct (next W); rewrite <- ?app_assoc.
Qed.

(** The backend is down, the write hook cancels: the continuation runs. *)
Lemma cancelRender_delegates_witness :
  outcome_of (prerender (with_hooks None (Some cancelling_hook)) backend_down
                (mkContext (crawler_get "/products/42")))
  = Ok (FromNext PNull)
  ∧ trace_of (prerender (with_hooks None (Some cancelling_hook)) backend_down
                (mkContext (crawler_get "/products/42")))
    = app (trace_of (getPrerenderedPageResponse
                       (with_hooks None (Some cancelling_hook)) backend_down
                       (mkContext (crawler_get "/products/42"))))
        [WriteCacheCalled (crawler_get "/products/42")
           (Some "error sending request: connection refused") None;
         NextCalled].
Proof.
  apply (cancelRender_delegates
           (with_hooks None (Some cancelling_hook)) backend_down
           (mkContext (crawler_get "/products/42")) cancelling_hook
           {| rr_error := Some "error sending request: connection refused";
              rr_body := None |}).
  - split; [vm_compute; reflexivity|exact I].
  - vm_compute; reflexivity.
  - reflexivity.
  - reflexivity.
Defined.

(** C5, as stated, fails: a retrieval that failed with an empty message has
    a non-null error, yet the handler returns the (null) body. *)
Lemma failed_retrieval_counterexample :
  ¬ failed_retrieval_as_stated defaultPrerenderer backend_down_quietly
      (mkContext (crawler_get "/products/42")).
Proof.
  intros H.
  destruct (H {| rr_error := Some EmptyString; rr_body := None |} EmptyString)
    as [Hthrow _].
  - split; [vm_compute; reflexivity|exact I].
  - vm_compute; reflexivity.
  - reflexivity.
  - exact I.
  - vm_compute in Hthrow. discriminate Hthrow.
Qed.

(** C5, amended. For a request that reaches the retrieval, when the
    retrieval result carries a non-empty error and the write hook is absent
    or resolves to no value or to [{ cancelRender: false }], the handler
    throws an error with exactly that message and never calls the
    continuation. *)
Theorem failed_retrieval_propagates (P : Prerenderer) (W : World)
  (ctx : Context) (rr : RetrievalResult) (msg : string) :
  reaches_retrieval P (request ctx) →
  outcome_of (getPrerenderedPageResponse P W ctx) = Ok rr →
  rr_error rr = Some msg →
  msg ≠ EmptyString →
  no_cancel P (request ctx) rr →
  outcome_of (prerender P W ctx) = Throw (mkError "Error" msg)
  ∧ NextCalled ∉ trace_of (prerender P W ctx).
Proof.
  intros [Helig Hmiss] Hret Herr Hmsg Hhook.
  pose proof (retrieval_keeps_control P W ctx []) as Hkeep.
  unfold outcome_of in Hret. unfold no_cancel in Hhook.
  destruct (getPrerenderedPageResponse P W ctx []) as [[h1 t1] r] eqn:Eret.
  cbn [fst snd] in Hret, Hkeep. subst r.
  destruct msg as [|c msg]; [done|].
  run_to_retrieval Helig Hmiss Eret;
    (destruct (_writeCache P) as [writeCache|];
     [destruct Hhook as [Hhook|Hhook]; run; rewrite Hhook; run|run]);
    rewrite Herr; run; (split; [reflexivity|]);
    rewrite ?app_nil_r; intros Hin;
    repeat (apply elem_of_cons in Hin as [Hin|Hin]; [discriminate Hin|]);
    try done;
    try (apply elem_of_app in Hin as [Hin|Hin]; [done|]);
    which_call Hin.
Qed.

Lemma failed_retrieval_propagates_witness :
  outcome_of (prerender (with_hooks (Some cache_empty) (Some storing_hook))
                backend_down (mkContext (crawler_get "/products/42")))
  = Throw (mkError "Error" "error sending request: connection refused")
  ∧ NextCalled
    ∉ trace_of (prerender (with_hooks (Some cache_empty) (Some storing_hook))
                  backend_down (mkContext (crawler_get "/products/42"))).
Proof.
  apply (failed_retrieval_propagates
           (with_hooks (Some cache_empty) (Some storing_hook)) backend_down
           (mkContext (crawler_get "/products/42"))
           {| rr_error := Some "error sending request: connection refused";
              rr_body := None |}).
  - split; [vm_compute; reflexivity|].
    eexists. split; [reflexivity|]. left. reflexivity.
  - vm_compute; reflexivity.
  - reflexivity.
  - discriminate.
  - right. reflexivity.
Defined.

(** * Further properties of the code *)

(** ** The rules of the classifier *)

Lemma get_lower hs name :
  Headers.is_name name = true →
  JsString.toLowerCase name = name →
  Headers.get hs name = Ok (Headers.combined hs name).
Proof. intros H1 H2. unfold Headers.get. by rewrite H1, H2. Qed.

Ltac classify :=
  unfold shouldShowPrerenderedPage;
  rewrite !get_lower by reflexivity; cbn [mbind result_bind].

(** X1. A request without a user-agent header, or with an empty one, is
    never eligible, whatever else it carries and whatever is configured. *)
Theorem no_user_agent_not_eligible (P : Prerenderer) (req : Request) :
  JsString.truthy (Headers.combined (headers req) "user-agent") = false →
  shouldShowPrerenderedPage P req = Ok false.
Proof.
  intros Hua. classify.
  by destruct (Headers.combined _ "user-agent") as [[|c ua]|].
Qed.

Lemma no_user_agent_not_eligible_witness :
  shouldShowPrerenderedPage defaultPrerenderer
    (with_headers "GET" "/products/42" [("x-bufferbot", "1")]) = Ok false.
Proof.
  apply (no_user_agent_not_eligible defaultPrerenderer
           (with_headers "GET" "/products/42" [("x-bufferbot", "1")])).
  reflexivity.
Defined.

(** X2. A request whose method is neither [GET] nor [HEAD] is never
    eligible. *)
Theorem other_method_not_eligible (P : Prerenderer) (req : Request) :
  method req ≠ "GET" → method req ≠ "HEAD" →
  shouldShowPrerenderedPage P req = Ok false.
Proof.
  intros Hget%String.eqb_neq Hhead%String.eqb_neq. classify.
  rewrite Hget, Hhead.
  by destruct (Headers.combined _ "user-agent") as [[|c ua]|].
Qed.

Lemma other_method_not_eligible_witness :
  shouldShowPrerenderedPage defaultPrerenderer
    (with_headers "POST" "/products/42" [("user-agent", "googlebot")])
  = Ok false.
Proof.
  apply (other_method_not_eligible defaultPrerenderer
           (with_headers "POST" "/products/42" [("user-agent", "googlebot")]));
    discriminate.
Defined.

(** X3. A request that carries a non-empty [x-prerender] header is never
    eligible: the snapshot service's own requests are not snapshotted. *)
Theorem x_prerender_not_eligible (P : Prerenderer) (req : Request) :
  JsString.truthy (Headers.combined (headers req) "x-prerender") = true →
  shouldShowPrerenderedPage P req = Ok false.
Proof.
  intros Hx. classify. rewrite Hx.
  destruct (Headers.combined _ "user-agent") as [[|c ua]|]; [done| |done].
  by destruct (negb _ && negb _).
Qed.

Lemma x_prerender_not_eligible_witness :
  shouldShowPrerenderedPage defaultPrerenderer
    (with_headers "GET" "/products/42"
       [("user-agent", "googlebot"); ("x-prerender", "1")])
  = Ok false.
Proof.
  apply (x_prerender_not_eligible defaultPrerenderer
           (with_headers "GET" "/products/42"
              [("user-agent", "googlebot"); ("x-prerender", "1")])).
  reflexivity.
Defined.

(** X4. A request whose path ends with an extension of the catalog, in any
    case, is never eligible, crawler or not. *)
Theorem asset_not_eligible (P : Prerenderer) (req : Request) :
  is_asset req = true →
  shouldShowPrerenderedPage P req = Ok false.
Proof.
  unfold is_asset. intros Hext. classify. rewrite Hext.
  destruct (Headers.combined _ "user-agent") as [[|c ua]|]; [done| |done].
  destruct (negb _ && negb _); [done|].
  by destruct (JsString.truthy _).
Qed.

Lemma asset_not_eligible_witness :
  shouldShowPrerenderedPage defaultPrerenderer
    (with_headers "GET" "/img/Logo.PNG" [("user-agent", "googlebot")])
  = Ok false.
Proof.
  apply (asset_not_eligible defaultPrerenderer
           (with_headers "GET" "/img/Logo.PNG" [("user-agent", "googlebot")])).
  vm_compute. reflexivity.
Defined.

Lemma some_false {A} (f : A → result bool) (l : list A) :
  some f l = Ok false → ∀ x, x ∈ l → f x = Ok false.
Proof.
  induction l as [|y l IH]; intros H x Hx; [by apply elem_of_nil in Hx|].
  cbn [some] in H. destruct (f y) as [[|]|e] eqn:Hy; try discriminate H.
  cbn [mbind result_bind] in H.
  apply elem_of_cons in Hx as [->|Hx]; [exact Hy|by apply IH].
Qed.

Lemma every_false {A} (f : A → result bool) (l : list A) :
  every f l = Ok false → ∃ x, x ∈ l ∧ f x = Ok false.
Proof.
  induction l as [|y l IH]; intros H; [discriminate H|].
  cbn [every] in H. destruct (f y) as [[|]|e] eqn:Hy; try discriminate H;
    cbn [mbind result_bind] in H.
  - destruct (IH H) as (x & Hx & Hfx). exists x. split; [|done].
    apply elem_of_cons. by right.
  - exists y. split; [apply elem_of_cons; by left|done].
Qed.

Lemma method_guard m :
  negb (String.eqb m "GET") && negb (String.eqb m "HEAD") = false →
  m = "GET" ∨ m = "HEAD".
Proof.
  destruct (String.eqb_spec m "GET") as [->|_]; [by left|].
  destruct (String.eqb_spec m "HEAD") as [->|_]; [by right|done].
Qed.

(** X5. What eligibility implies: an eligible request has a non-empty
    user-agent, method [GET] or [HEAD], no [x-prerender] header, a path that
    is no asset, and at least one of the three signals (escaped fragment,
    crawler user-agent, [x-bufferbot]). If a whitelist is configured, one of
    its patterns compiles and meets the full URL; no pattern of a configured
    blacklist meets the URL or the referer. *)
Theorem eligible_implies (P : Prerenderer) (req : Request) :
  shouldShowPrerenderedPage P req = Ok true →
  (∃ userAgent,
     Headers.combined (headers req) "user-agent" = Some userAgent
     ∧ userAgent ≠ EmptyString
     ∧ wants_snapshot req userAgent)
  ∧ (method req = "GET" ∨ method req = "HEAD")
  ∧ JsString.truthy (Headers.combined (headers req) "x-prerender") = false
  ∧ is_asset req = false
  ∧ (∀ whitelist, _whitelist P = Some whitelist →
       ∃ p regex, p ∈ whitelist ∧ RegExp.compile p = Ok regex
                  ∧ RegExp.test regex (URL.href (url req)) = true)
  ∧ (∀ blacklist p regex, _blacklist P = Some blacklist → p ∈ blacklist →
       RegExp.compile p = Ok regex → ¬ blacklist_match req regex).
Proof.
  classify.
  destruct (Headers.combined _ "user-agent") as [[|c ua]|] eqn:Hua;
    [done| |done].
  destruct (negb _ && negb _) eqn:Hmethod; [done|].
  destruct (JsString.truthy (Headers.combined _ "x-prerender")) eqn:Hx;
    [done|].
  fold (is_asset req). destruct (is_asset req) eqn:Hasset; [done|].
  fold (is_crawler (String c ua)).
  destruct (match _whitelist P with Some _ => _ | None => _ end)
    as [[|]|e] eqn:Hwl; [done| |done].
  cbn [mbind result_bind].
  destruct (match _blacklist P with Some _ => _ | None => _ end)
    as [[|]|e] eqn:Hbl; [done| |done].
  cbn [mbind result_bind]. intros Hflag.
  split_and!; [|by apply method_guard|done|done| |].
  - exists (String c ua). split_and!; [done|done|]. unfold wants_snapshot.
    destruct (JsString.truthy (Headers.combined _ "x-bufferbot")); [auto|].
    destruct (is_crawler _); [auto|].
    destruct (JsString.truthy (URL.searchParams_get _ _)); [auto|].
    discriminate Hflag.
  - intros whitelist Hsome. rewrite Hsome in Hwl.
    apply every_false in Hwl as (p & Hp & Hfp).
    destruct (RegExp.compile p) as [regex|e] eqn:Hc; [|discriminate Hfp].
    exists p, regex. split_and!; [done|done|].
    cbn in Hfp. by destruct (RegExp.test regex _).
  - intros blacklist p regex Hsome Hp Hc Hmatch. rewrite Hsome in Hbl.
    pose proof (some_false _ _ Hbl p Hp) as Hfp. cbn beta in Hfp.
    rewrite Hc in Hfp. cbn [mbind result_bind] in Hfp.
    rewrite ?get_lower in Hfp by reflexivity.
    cbn [mbind result_bind] in Hfp.
    destruct Hmatch as [Hurl|(referer & Href & Hne & Htest)].
    + rewrite Hurl in Hfp.
      destruct (JsString.truthy (Headers.combined (headers req) "referer"));
        cbn in Hfp; discriminate Hfp.
    + rewrite Href in Hfp. destruct referer as [|d referer]; [done|].
      cbn in Hfp. cbn in Htest. rewrite Htest in Hfp.
      rewrite orb_true_r in Hfp. discriminate Hfp.
Qed.

Lemma eligible_implies_witness :
  (∃ userAgent,
     Headers.combined (headers (crawler_get "/products/42")) "user-agent"
       = Some userAgent
     ∧ userAgent ≠ EmptyString
     ∧ wants_snapshot (crawler_get "/products/42") userAgent)
  ∧ (method (crawler_get "/products/42") = "GET"
     ∨ method (crawler_get "/products/42") = "HEAD").
Proof.
  destruct (eligible_implies (with_whitelist ["/products/"])
              (crawler_get "/products/42")) as (H1 & H2 & _).
  - vm_compute. reflexivity.
  - exact (conj H1 H2).
Defined.

(** X6. Without a whitelist and a blacklist the guards and the signals
    decide: a [GET] or [HEAD] request with a non-empty user-agent, no
    [x-prerender] header and a path that is no asset is eligible as soon as
    one of the three signals is there. *)
Theorem signalled_request_eligible (P : Prerenderer) (req : Request)
  (userAgent : string) :
  _whitelist P = None → _blacklist P = None →
  Headers.combined (headers req) "user-agent" = Some userAgent →
  userAgent ≠ EmptyString →
  method req = "GET" ∨ method req = "HEAD" →
  JsString.truthy (Headers.combined (headers req) "x-prerender") = false →
  is_asset req = false →
  wants_snapshot req userAgent →
  shouldShowPrerenderedPage P req = Ok true.
Proof.
  intros Hwl Hbl Hua Hne Hmethod Hx Hasset Hsignal. classify.
  rewrite Hua, Hx, Hwl, Hbl. fold (is_asset req). rewrite Hasset.
  destruct userAgent as [|c ua]; [done|]. fold (is_crawler (String c ua)).
  assert (negb (String.eqb (method req) "GET")
          && negb (String.eqb (method req) "HEAD") = false) as ->
    by (by destruct Hmethod as [-> | ->]).
  cbn [mbind result_bind].
  unfold wants_snapshot in Hsignal.
  destruct (JsString.truthy (Headers.combined _ "x-bufferbot")); [done|].
  destruct (is_crawler _); [done|].
  destruct (JsString.truthy (URL.searchParams_get _ _)); [done|].
  by destruct Hsignal as [?|[?|?]].
Qed.

Lemma signalled_request_eligible_witness :
  shouldShowPrerenderedPage defaultPrerenderer
    (with_headers "HEAD" "/products/42" [("user-agent", "curl/8.0");
                                         ("x-bufferbot", "1")])
  = Ok true.
Proof.
  apply (signalled_request_eligible defaultPrerenderer
           (with_headers "HEAD" "/products/42"
              [("user-agent", "curl/8.0"); ("x-bufferbot", "1")])
           "curl/8.0");
    [reflexivity|reflexivity|reflexivity|discriminate|by right|reflexivity
    |vm_compute; reflexivity|].
  right. right. reflexivity.
Defined.

(** X7. After [whiteListed = s] with a single string, a request is eligible
    only if [s] compiles and meets the full URL of the request. *)
Theorem single_whitelist_gate (P : Prerenderer) (req : Request) (s : string) :
  shouldShowPrerenderedPage (set_whiteListed (inl s) P) req = Ok true →
  ∃ regex, RegExp.compile s = Ok regex
           ∧ RegExp.test regex (URL.href (url req)) = true.
Proof.
  classify. cbn [_whitelist set_whiteListed normalize_list every].
  destruct (Headers.combined _ "user-agent") as [[|c ua]|]; [done| |done].
  destruct (negb _ && negb _); [done|].
  destruct (JsString.truthy (Headers.combined _ "x-prerender")); [done|].
  destruct (existsb _ EXTENSIONS_TO_IGNORE); [done|].
  destruct (RegExp.compile s) as [regex|e]; [|done].
  cbn [mbind result_bind mret result_ret].
  destruct (RegExp.test regex _) eqn:Htest; [|done].
  intros _. by exists regex.
Qed.

Lemma single_whitelist_gate_witness :
  ∃ regex, RegExp.compile "/products/" = Ok regex
           ∧ RegExp.test regex (URL.href (url (crawler_get "/products/42")))
             = true.
Proof.
  apply (single_whitelist_gate defaultPrerenderer (crawler_get "/products/42")
           "/products/").
  vm_compute. reflexivity.
Defined.

(** ** The upstream URL, in general *)

Lemma index_S (n : nat) (s1 : string) (c : ascii) (s2 : string) :
  String.index (S n) s1 (String c s2)
  = match String.index n s1 s2 with Some k => Some (S k) | None => None end.
Proof. reflexivity. Qed.

Lemma ends_with_slash_inv (base : string) :
  JsString.includes_from "/" (String.length base - 1) base = true →
  ∃ b, base = b ++ "/".
Proof.
  unfold JsString.includes_from.
  induction base as [|c base IH]; [discriminate|].
  destruct base as [|d base].
  - cbn [String.index String.prefix String.length Nat.sub].
    destruct (Ascii.ascii_dec "/" c) as [<-|]; [|discriminate].
    by exists EmptyString.
  - cbn [String.length Nat.sub] in *. rewrite Nat.sub_0_r in *.
    rewrite index_S.
    destruct (String.index (String.length base) "/" (String d base));
      [|discriminate].
    intros _. destruct IH as [b ->]; [done|]. by exists (String c b).
Qed.

Lemma substring_all (s : string) : String.substring 0 (String.length s) s = s.
Proof. induction s as [|c s IH]; [done|]. cbn. by f_equal. Qed.

Lemma append_cons (c : ascii) (s t : string) :
  String c s ++ t = String c (s ++ t).
Proof. reflexivity. Qed.

Lemma append_empty_l (s : string) : EmptyString ++ s = s.
Proof. reflexivity. Qed.

Lemma append_empty_r (s : string) : s ++ EmptyString = s.
Proof.
  induction s as [|c s IH]; [done|]. rewrite append_cons. by f_equal.
Qed.

Lemma prefix_empty (s : string) : String.prefix EmptyString s = true.
Proof. by destruct s. Qed.

Lemma cut_absent (c : ascii) (s : string) :
  URL.is_host_char c = false →
  JsString.forallb_string URL.is_host_char s = true →
  JsString.cut c s = (s, None).
Proof.
  intros Hc. induction s as [|d s IH]; [done|].
  cbn [JsString.forallb_string JsString.cut]. intros [Hd Hs]%andb_prop.
  destruct (Ascii.eqb_spec c d) as [->|_]; [congruence|].
  by rewrite IH.
Qed.

(** A plain host name parses to itself, lower-cased. *)
Lemma parse_plain_host (h : string) :
  h ≠ EmptyString →
  JsString.forallb_string URL.is_host_char h = true →
  URL.parse ("https" ++ "://" ++ h)
  = Ok (URL.mk URL.https (JsString.toLowerCase h) "/" None None).
Proof.
  intros Hne Hh. unfold URL.parse, URL.strip_scheme.
  rewrite !append_cons, append_empty_l.
  cbn [String.prefix String.length Nat.sub String.substring].
  repeat (destruct (Ascii.ascii_dec _ _); [|done]).
  rewrite Nat.sub_0_r, substring_all, prefix_empty.
  rewrite !(cut_absent _ h) by done.
  unfold URL.parse_authority. rewrite (cut_absent ":" h) by done.
  rewrite Hh. by destruct h.
Qed.

(** Path and query of the request go into the upstream URL unchanged. *)
Lemma href_rebuilt (u : URL.t) (hostname : string) :
  String.prefix "/" (URL.pathname u) = true →
  URL.toString
    (URL.set_search (URL.search u)
       (URL.set_pathname (URL.pathname u)
          (URL.mk URL.https hostname "/" None None)))
  = "https://" ++ hostname ++ URL.pathname u ++ URL.search u.
Proof.
  destruct u as [sch h0 p q f]. cbn [URL.pathname URL.path].
  intros Hp. destruct p as [|c p]; [discriminate|].
  cbn [String.prefix] in Hp.
  destruct (Ascii.ascii_dec "/" c) as [<-|]; [|discriminate]. clear Hp.
  unfold URL.toString, URL.href, URL.search, URL.set_pathname, URL.set_search.
  destruct q as [[|d q]|]; cbn [URL.scheme URL.host URL.path URL.query
    URL.fragment URL.scheme_name];
    by rewrite ?append_cons, ?append_empty_l, ?append_empty_r.
Qed.

(** Whatever follows [https://], the parsed scheme is [https]. *)
Lemma parse_https_scheme (x : string) (u : URL.t) :
  URL.parse ("https" ++ "://" ++ x) = Ok u → URL.scheme u = URL.https.
Proof.
  unfold URL.parse, URL.strip_scheme.
  rewrite !append_cons, append_empty_l.
  cbn [String.prefix String.length Nat.sub String.substring].
  repeat (destruct (Ascii.ascii_dec _ _); [|done]).
  rewrite prefix_empty.
  destruct (JsString.cut "#" _) as [r1 frag].
  destruct (JsString.cut "?" _) as [r2 q].
  destruct (JsString.cut "/" _) as [auth p].
  destruct (URL.parse_authority _ _); [|done]. by intros [= <-].
Qed.

Lemma href_https (u : URL.t) :
  URL.scheme u = URL.https → String.prefix "https://" (URL.href u) = true.
Proof.
  destruct u as [sch h p q f]. cbn [URL.scheme]. intros ->.
  unfold URL.href. cbn [URL.scheme URL.scheme_name].
  rewrite !append_cons, append_empty_l. cbn [String.prefix].
  repeat (destruct (Ascii.ascii_dec _ _); [|done]). apply prefix_empty.
Qed.

Lemma name_chars_host_chars (h : string) :
  JsString.forallb_string is_name_char h = true →
  JsString.forallb_string URL.is_host_char h = true.
Proof.
  induction h as [|c h IH]; [done|].
  cbn [JsString.forallb_string]. intros [Hc Hh]%andb_prop.
  rewrite IH by done. rewrite andb_true_r.
  unfold is_name_char in Hc. unfold URL.is_host_char. cbv zeta in *.
  apply orb_prop in Hc as [[Hc|Hc]%orb_prop|Hc].
  - rewrite Hc. by destruct (URL.is_digit c).
  - rewrite Hc. by rewrite orb_true_r.
  - apply Ascii.eqb_eq in Hc as ->. reflexivity.
Qed.

(** X8. For a host name made of letters and dots, taken from
    [x-forwarded-host], or from [host] when the former is absent or empty,
    the upstream URL is the base, the separator the base lacks, [https://],
    the host in lower case, and the path and query of the request
    unchanged. *)
Theorem buildApiUrl_plain_host (P : Prerenderer) (req : Request) (h : string) :
  chosen_host (headers req) = Some h →
  h ≠ EmptyString →
  JsString.forallb_string is_name_char h = true →
  String.prefix "/" (URL.pathname (url req)) = true →
  buildApiUrl P req
  = Ok (prerenderServiceUrl P ++ separator (prerenderServiceUrl P)
        ++ "https://" ++ JsString.toLowerCase h
        ++ URL.pathname (url req) ++ URL.search (url req)).
Proof.
  intros Hhost Hne Hh%name_chars_host_chars Hpath.
  unfold buildApiUrl, chosen_host, separator in *.
  rewrite !get_lower by reflexivity. cbn [mbind result_bind].
  destruct (JsString.truthy (Headers.combined _ "x-forwarded-host"));
    cbn [mret result_ret mbind result_bind]; rewrite Hhost;
    cbn [JsString.interpolate]; rewrite (parse_plain_host h Hne Hh);
    cbn [mbind result_bind]; by rewrite href_rebuilt.
Qed.

Lemma buildApiUrl_plain_host_witness :
  buildApiUrl (with_serviceUrl "http://render.internal:3000")
    (with_headers "GET" "/Products/42"
       [("host", "internal:8080"); ("x-forwarded-host", "Shop.Example.COM")])
  = Ok "http://render.internal:3000/https://shop.example.com/Products/42".
Proof.
  apply (buildApiUrl_plain_host (with_serviceUrl "http://render.internal:3000")
           (with_headers "GET" "/Products/42"
              [("host", "internal:8080");
               ("x-forwarded-host", "Shop.Example.COM")])
           "Shop.Example.COM");
    [reflexivity|discriminate|reflexivity|reflexivity].
Defined.

(** X9. When neither [x-forwarded-host] nor [host] gives a host,
    [buildApiUrl] does not fail: the upstream URL names the host [null]. *)
Theorem buildApiUrl_without_host (P : Prerenderer) (req : Request) :
  chosen_host (headers req) = None →
  String.prefix "/" (URL.pathname (url req)) = true →
  buildApiUrl P req
  = Ok (prerenderServiceUrl P ++ separator (prerenderServiceUrl P)
        ++ "https://" ++ "null"
        ++ URL.pathname (url req) ++ URL.search (url req)).
Proof.
  intros Hhost Hpath. unfold buildApiUrl, chosen_host, separator in *.
  rewrite !get_lower by reflexivity. cbn [mbind result_bind].
  destruct (JsString.truthy (Headers.combined _ "x-forwarded-host"));
    cbn [mret result_ret mbind result_bind]; rewrite Hhost;
    cbn [JsString.interpolate];
    rewrite (parse_plain_host "null") by done;
    cbn [mbind result_bind]; by rewrite href_rebuilt.
Qed.

Lemma buildApiUrl_without_host_witness :
  buildApiUrl defaultPrerenderer
    (with_headers "GET" "/a" [("user-agent", "googlebot")])
  = Ok "http://service.prerender.io/https://null/a".
Proof.
  apply (buildApiUrl_without_host defaultPrerenderer
           (with_headers "GET" "/a" [("user-agent", "googlebot")]));
    reflexivity.
Defined.

(** X10. Whenever [buildApiUrl] returns, the result is the base, made to
    end with a slash by at most one added separator, followed by an
    absolute [https://] URL, whatever the scheme of the incoming request. *)
Theorem buildApiUrl_shape (P : Prerenderer) (req : Request) (s : string) :
  buildApiUrl P req = Ok s →
  ∃ b fullUrl,
    s = (b ++ "/") ++ fullUrl
    ∧ (prerenderServiceUrl P = b ++ "/" ∨ prerenderServiceUrl P = b)
    ∧ String.prefix "https://" fullUrl = true.
Proof.
  unfold buildApiUrl. rewrite !get_lower by reflexivity.
  cbn [mbind result_bind].
  set (hostPort := if JsString.truthy _ then _ else _).
  destruct hostPort as [hostPort|e]; [|done]. cbn [mbind result_bind].
  destruct (URL.parse _) as [u|e] eqn:Hparse; [|done].
  apply parse_https_scheme in Hparse.
  cbn [mbind result_bind mret result_ret]. intros [= <-].
  set (full := URL.toString _).
  assert (String.prefix "https://" full = true) as Hfull.
  { apply href_https. by destruct u. }
  destruct (JsString.includes_from _ _ _) eqn:Hslash.
  - apply ends_with_slash_inv in Hslash as [b Hb].
    exists b, full. rewrite append_empty_l, <- Hb. auto.
  - exists (prerenderServiceUrl P), full. split_and!; [|by right|done].
    clear. induction (prerenderServiceUrl P) as [|c b IH]; [done|].
    rewrite !append_cons. by f_equal.
Qed.

Lemma buildApiUrl_shape_witness :
  ∃ b fullUrl,
    "http://svc/https://host/a?b=1" = (b ++ "/") ++ fullUrl
    ∧ (prerenderServiceUrl (with_serviceUrl "http://svc") = b ++ "/"
       ∨ prerenderServiceUrl (with_serviceUrl "http://svc") = b)
    ∧ String.prefix "https://" fullUrl = true.
Proof.
  apply (buildApiUrl_shape (with_serviceUrl "http://svc")
           (forwarded_request "GET"
              (URL.mk URL.http "internal" "/" None None))).
  reflexivity.
Defined.

(** ** The retriever, further *)

(** The events around the [try] block add no call. *)
Lemma try_block_calls (body : M RetrievalResult) (h : heap)
  (Good : URL.t → RequestInit → Prop) :
  call_post Good (body h) →
  Forall (λ c, Good c.1 c.2)
    (fetch_calls
       ((console_info ["invoking prerender server"];;
         try_catch body
           (λ error,
              console_info ["Error in prerender server"; message error];;
              mret {| rr_error := Some (message error); rr_body := None |}))
          h).1.2).
Proof.
  intros Hbody. rewrite run_bind. cbn [console_info emit]. unfold try_catch.
  destruct (body h) as [[h1 t1] r].
  destruct Hbody as [[Ht [e He]]|(u & init & Ht & Hgood)];
    cbn [fst snd] in *; subst.
  - cbn. constructor.
  - destruct r; cbn; by repeat constructor.
Qed.

(** The call itself, after a silent preparation of the init object. *)
Lemma call_after_init (W : World) (u : URL.t) (mk_init : M loc) (h : heap)
  (k : Response → M RetrievalResult) (Good : URL.t → RequestInit → Prop) :
  (∀ response, silent (k response)) →
  (∀ h1 init, mk_init h = ((h1, []), Ok init) → Good u (snapshot h1 init)) →
  silent mk_init →
  call_post Good
    ((init ← mk_init; response ← await_fetch W u init; k response) h).
Proof.
  intros Hk Hgood Hsilent. rewrite run_bind. specialize (Hsilent h).
  destruct (mk_init h) as [[h1 t1] [init|e]] eqn:Hinit; cbn in Hsilent; subst;
    [|left; eauto].
  rewrite run_bind. unfold await_fetch. right.
  exists u, (snapshot h1 init). split; [|by apply Hgood].
  destruct (fetch W u (snapshot h1 init)) as [response|e]; [|done].
  specialize (Hk response h1).
  destruct (k response h1) as [[h2 t2] r]. cbn in *. by subst.
Qed.

(** X11. A call of the retriever goes to the URL that [buildApiUrl]
    gives, parsed; there is no call when that URL cannot be built. *)
Theorem call_goes_to_upstream_url (P : Prerenderer) (W : World)
  (ctx : Context) (h : heap) :
  Forall (λ c, upstream_url P (request ctx) = Ok c.1)
    (fetch_calls (getPrerenderedPageResponse P W ctx h).1.2).
Proof.
  unfold getPrerenderedPageResponse.
  apply (try_block_calls _ h (λ u _, upstream_url P (request ctx) = Ok u)).
  cbv zeta. do 9 silent_step.
  apply bind_lift; [intros ? ?; left; eauto|intros apiUrl Hapi].
  apply bind_lift; [intros ? ?; left; eauto|intros u Hu].
  apply call_after_init; [intros ?; auto 10 with silent| |auto 10 with silent].
  intros _ _ _. unfold upstream_url. rewrite Hapi. exact Hu.
Qed.

Lemma read_object_first (h extra : heap) (o bag copyobj : object) :
  read_object (app (app (app (app h [o]) [bag]) extra) [copyobj])
    (List.length h) = o.
Proof.
  unfold read_object. rewrite <- !app_assoc. cbn [app].
  by rewrite list_lookup_middle.
Qed.

Lemma flat_insert (o : object) (k : string) (p : prim) :
  flat (<[k := VPrim p]> o) = <[k := p]> (flat o).
Proof. unfold flat. by apply omap_insert_Some. Qed.

(** X12. With [forwardHeaders] off and no [headers] entry in the extra
    options, a call carries exactly the user-agent of the request, the
    fixed encoding and, when a token is configured, the token: no other
    incoming header reaches the rendering backend. *)
Theorem nothing_forwarded_when_off (P : Prerenderer) (W : World)
  (ctx : Context) (h : heap) :
  forwardHeaders P = false →
  prerenderServerRequestOptions P !! "headers" = None →
  Forall (λ init, outbound_headers init = Some (fixed_headers P (request ctx)))
    (fetch_inits (getPrerenderedPageResponse P W ctx h).1.2).
Proof.
  intros Hoff Hcfg.
  assert (Forall (λ c, outbound_headers c.2
                       = Some (fixed_headers P (request ctx)))
            (fetch_calls (getPrerenderedPageResponse P W ctx h).1.2)) as Hcalls.
  { unfold getPrerenderedPageResponse.
    apply (try_block_calls _ h
             (λ _ init, outbound_headers init
                        = Some (fixed_headers P (request ctx)))).
    cbv zeta. rewrite Hoff.
    eapply bind_det; [reflexivity|].
    eapply bind_det; [reflexivity|].
    match goal with |- call_post _ ((json_clone ?c ≫= _) ?h0) =>
      destruct (json_clone_spec c h0) as (extra & copyobj & Hclone & Hkeys) end.
    eapply bind_det; [exact Hclone|].
    eapply bind_det; [reflexivity|].
    match goal with |- call_post _ (_ ?h4) =>
      assert (bag_inv (List.length h) (List.length (app h [∅])) h4
              ∧ read_object h4 (List.length h) = ∅) as [Hinv Hempty];
      [|clear Hclone; revert Hinv Hempty; generalize h4; intros h5 Hinv Hempty]
    end.
    { split.
      - unfold bag_inv. split_and!.
        + rewrite length_alter, !length_app. cbn. lia.
        + rewrite length_alter, !length_app. cbn. lia.
        + rewrite length_app. cbn. lia.
        + rewrite read_object_alter_eq by (rewrite !length_app; cbn; lia).
          rewrite read_object_snoc, read_object_bag.
          rewrite lookup_union_r by auto. apply lookup_singleton_eq.
      - rewrite read_object_alter_ne by (rewrite length_app; cbn; lia).
        apply read_object_first. }
    eapply bind_det; [reflexivity|].
    apply bind_lift; [intros ? ?; left; eauto|intros userAgent Hua].
    rewrite get_lower in Hua by reflexivity. injection Hua as <-.
    eapply bind_det; [reflexivity|].
    eapply bind_det; [reflexivity|].
    pose proof Hinv as (Hhd & _).
    unfold fixed_headers.
    destruct (JsString.nonempty (prerenderToken P));
      (eapply bind_det; [reflexivity|]);
      (apply bind_lift; [intros ? ?; left; eauto|intros apiUrl _]);
      (apply bind_lift; [intros ? ?; left; eauto|intros u _]);
      (apply call_after_init;
       [intros ?; auto 10 with silent| |auto 10 with silent]);
      intros h1 init Hrun;
      match type of Hrun with _ ?h6 = _ =>
        destruct (fetch_init_headers (List.length h)
                    (List.length (app h [∅])) h6)
          as (h1' & init' & Heq & Hheaders);
        [by repeat apply set_prop_inv|]
      end;
      rewrite Heq in Hrun; injection Hrun as <- <-;
      unfold outbound_headers; rewrite Hheaders;
      rewrite ?read_set_prop by (by rewrite ?length_alter);
      rewrite Hempty, str_or_null_prim; unfold str;
      by rewrite !flat_insert. }
  revert Hcalls. unfold fetch_calls, fetch_inits.
  generalize ((getPrerenderedPageResponse P W ctx h).1.2).
  intros t. induction t as [|[] t IH]; cbn; intros Hall;
    try (by apply IH); [constructor|].
  apply Forall_cons in Hall as [Hhd Htl]. constructor; [exact Hhd|by apply IH].
Qed.

Lemma nothing_forwarded_when_off_witness :
  Forall (λ init,
      outbound_headers init
      = Some {[ "User-Agent" := PStr "googlebot";
                "Accept-Encoding" := PStr "gzip";
                "X-Prerender-Token" := PStr "secret" ]})
    (fetch_inits
       (trace_of (getPrerenderedPageResponse
                    (mkPrerenderer None None None None false "secret"
                       "http://service.prerender.io/" ∅)
                    backend_up (mkContext traced_get)))).
Proof.
  apply (nothing_forwarded_when_off
           (mkPrerenderer None None None None false "secret"
              "http://service.prerender.io/" ∅)
           backend_up (mkContext traced_get) []); reflexivity.
Defined.

(** X13. The result of the retriever carries either a body and no error or
    an error and no body, never both and never neither; the error is the
    one the retriever logged, and a result with a body logged none. *)
Theorem retrieval_result_exclusive (P : Prerenderer) (W : World)
  (ctx : Context) (h : heap) :
  ∃ rr,
    (getPrerenderedPageResponse P W ctx h).2 = Ok rr
    ∧ ((∃ body,
          rr = {| rr_error := None; rr_body := Some body |}
          ∧ ∀ msg, ConsoleInfo ["Error in prerender server"; msg]
                   ∉ (getPrerenderedPageResponse P W ctx h).1.2)
       ∨ (∃ msg,
            rr = {| rr_error := Some msg; rr_body := None |}
            ∧ ConsoleInfo ["Error in prerender server"; msg]
              ∈ (getPrerenderedPageResponse P W ctx h).1.2)).
Proof.
  destruct (retrieval_cases P W ctx h)
    as [(msg & Ht & Hr)|(u & init & _ & Hcase)]; cbv zeta in *.
  - eexists. split; [exact Hr|]. right. exists msg. split; [done|].
    rewrite Ht, !elem_of_cons. auto.
  - destruct (fetch W u init ≫= _) as [body|e]; destruct Hcase as [Ht Hr];
      (eexists; split; [exact Hr|]).
    + left. exists body. split; [done|]. intros msg Hin. rewrite Ht in Hin.
      which_call Hin.
    + right. exists (message e). split; [done|].
      rewrite Ht, !elem_of_cons. auto.
Qed.

(** ** The orchestrator, path by path *)

Lemma prerender_paths (P : Prerenderer) (W : World) (ctx : Context) :
  (trace_of (prerender P W ctx), outcome_of (prerender P W ctx))
  = paths P W ctx.
Proof.
  unfold paths, after_miss, finish, trace_of, outcome_of, prerender.
  run.
  destruct (shouldShowPrerenderedPage P (request ctx)) as [[|]|e]; run;
    [|by destruct (next W)|done].
  destruct (_resolveCache P) as [resolveCache|]; run;
    [destruct (resolveCache (request ctx)) as [co|e]; run; [|done];
     destruct (negb _ && _); run; [done|]|];
    (destruct (getPrerenderedPageResponse P W ctx []) as [[h1 t1] [rr|e]];
     run; [|by rewrite ?app_nil_r];
     destruct (_writeCache P) as [writeCache|]; run;
     [destruct (writeCache _ _ _) as [o|e]; run;
      [destruct (cancelRender (default _ o)); run|]|];
     try destruct (rr_error rr) as [[|c msg]|]; run;
     try destruct (next W);
     by rewrite ?app_nil_r, <- ?app_assoc).
Qed.

Lemma trace_paths (P : Prerenderer) (W : World) (ctx : Context) :
  trace_of (prerender P W ctx) = (paths P W ctx).1.
Proof. by rewrite <- prerender_paths. Qed.

Lemma outcome_paths (P : Prerenderer) (W : World) (ctx : Context) :
  outcome_of (prerender P W ctx) = (paths P W ctx).2.
Proof. by rewrite <- prerender_paths. Qed.

Lemma paths_after_miss (P : Prerenderer) (W : World) (ctx : Context) :
  reaches_retrieval P (request ctx) →
  paths P W ctx = after_miss P W ctx (read_events P (request ctx)).
Proof.
  intros [Helig Hmiss]. unfold paths, read_events. rewrite Helig.
  destruct (_resolveCache P) as [resolveCache|]; [|done].
  destruct Hmiss as (co & -> & Hmiss). by rewrite (miss_test co Hmiss).
Qed.

(** X14. A request that is not eligible goes to the continuation and
    nowhere else: no hook runs, no call goes out, and the handler resolves
    to what the continuation does. *)
Theorem not_eligible_delegates (P : Prerenderer) (W : World) (ctx : Context) :
  shouldShowPrerenderedPage P (request ctx) = Ok false →
  outcome_of (prerender P W ctx) = FromNext <$> next W
  ∧ trace_of (prerender P W ctx) = [NextCalled].
Proof.
  intros Helig. rewrite outcome_paths, trace_paths. unfold paths.
  by rewrite Helig.
Qed.

Lemma not_eligible_delegates_witness :
  outcome_of (prerender (with_hooks (Some cache_full) (Some storing_hook))
                backend_up
                (mkContext (with_headers "GET" "/"
                              [("user-agent", "Mozilla/5.0 Firefox/120.0")])))
  = Ok (FromNext PNull)
  ∧ trace_of (prerender (with_hooks (Some cache_full) (Some storing_hook))
                backend_up
                (mkContext (with_headers "GET" "/"
                              [("user-agent", "Mozilla/5.0 Firefox/120.0")])))
    = [NextCalled].
Proof.
  apply (not_eligible_delegates
           (with_hooks (Some cache_full) (Some storing_hook)) backend_up
           (mkContext (with_headers "GET" "/"
                         [("user-agent", "Mozilla/5.0 Firefox/120.0")]))).
  vm_compute. reflexivity.
Defined.

(** X15. When the classifier throws (a pattern of the whitelist or the
    blacklist does not compile), the handler throws the same error and does
    nothing else: not even the continuation runs. *)
Theorem classifier_failure_propagates (P : Prerenderer) (W : World)
  (ctx : Context) (e : Error) :
  shouldShowPrerenderedPage P (request ctx) = Throw e →
  outcome_of (prerender P W ctx) = Throw e
  ∧ trace_of (prerender P W ctx) = [].
Proof.
  intros Helig. rewrite outcome_paths, trace_paths. unfold paths.
  by rewrite Helig.
Qed.

Lemma classifier_failure_propagates_witness :
  outcome_of (prerender (with_whitelist ["("]) backend_up
                (mkContext (crawler_get "/products/42")))
  = Throw (SyntaxError "Invalid regular expression: (")
  ∧ trace_of (prerender (with_whitelist ["("]) backend_up
                (mkContext (crawler_get "/products/42"))) = [].
Proof.
  apply (classifier_failure_propagates (with_whitelist ["("]) backend_up
           (mkContext (crawler_get "/products/42"))).
  vm_compute. reflexivity.
Defined.

(** X16. When the read hook rejects, an eligible request ends there: the
    handler throws the hook's error, and neither the retriever nor the
    write hook nor the continuation runs. *)
Theorem read_failure_propagates (P : Prerenderer) (W : World) (ctx : Context)
  (resolveCache : CacheReadFunction) (e : Error) :
  shouldShowPrerenderedPage P (request ctx) = Ok true →
  _resolveCache P = Some resolveCache →
  resolveCache (request ctx) = Throw e →
  outcome_of (prerender P W ctx) = Throw e
  ∧ trace_of (prerender P W ctx)
    = [ConsoleInfo ["trying to resolve cache"];
       ResolveCacheCalled (request ctx)].
Proof.
  intros Helig Hhook Hread. rewrite outcome_paths, trace_paths. unfold paths.
  by rewrite Helig, Hhook, Hread.
Qed.

Lemma read_failure_propagates_witness :
  outcome_of (prerender (with_hooks (Some cache_unreachable) None) backend_up
                (mkContext (crawler_get "/products/42")))
  = Throw (mkError "Error" "cache unreachable")
  ∧ trace_of (prerender (with_hooks (Some cache_unreachable) None) backend_up
                (mkContext (crawler_get "/products/42")))
    = [ConsoleInfo ["trying to resolve cache"];
       ResolveCacheCalled (crawler_get "/products/42")].
Proof.
  apply (read_failure_propagates (with_hooks (Some cache_unreachable) None)
           backend_up (mkContext (crawler_get "/products/42"))
           cache_unreachable);
    [vm_compute; reflexivity|reflexivity|reflexivity].
Defined.

(** X17. When the write hook rejects, the handler throws the hook's error,
    also after a successful retrieval: the body is not returned and the
    continuation is not called. *)
Theorem write_failure_propagates (P : Prerenderer) (W : World) (ctx : Context)
  (writeCache : CacheWriteFunction) (rr : RetrievalResult) (e : Error) :
  reaches_retrieval P (request ctx) →
  outcome_of (getPrerenderedPageResponse P W ctx) = Ok rr →
  _writeCache P = Some writeCache →
  writeCache (request ctx) (rr_error rr) (rr_body rr) = Throw e →
  outcome_of (prerender P W ctx) = Throw e
  ∧ trace_of (prerender P W ctx)
    = app (read_events P (request ctx))
        (app (trace_of (getPrerenderedPageResponse P W ctx))
           [WriteCacheCalled (request ctx) (rr_error rr) (rr_body rr)]).
Proof.
  intros Hreach Hret Hhook Hwrite. rewrite outcome_paths, trace_paths.
  rewrite (paths_after_miss P W ctx Hreach). unfold after_miss.
  by rewrite Hret, Hhook, Hwrite.
Qed.

Lemma write_failure_propagates_witness :
  outcome_of (prerender (with_hooks None (Some failing_write)) backend_up
                (mkContext (crawler_get "/products/42")))
  = Throw (mkError "Error" "disk full")
  ∧ trace_of (prerender (with_hooks None (Some failing_write)) backend_up
                (mkContext (crawler_get "/products/42")))
    = app (trace_of (getPrerenderedPageResponse
                       (with_hooks None (Some failing_write)) backend_up
                       (mkContext (crawler_get "/products/42"))))
        [WriteCacheCalled (crawler_get "/products/42") None
           (Some "<html></html>")].
Proof.
  apply (write_failure_propagates (with_hooks None (Some failing_write))
           backend_up (mkContext (crawler_get "/products/42")) failing_write
           {| rr_error := None; rr_body := Some "<html></html>" |});
    [split; [vm_compute; reflexivity|exact I]|vm_compute; reflexivity
    |reflexivity|reflexivity].
Defined.

(** X18. On a miss with a successful retrieval that the write hook does not
    cancel, the handler returns the retrieved body, after calling the write
    hook, if there is one, once with the request and exactly the retrieved
    error and body; the continuation is not called. *)
Theorem retrieved_body_returned (P : Prerenderer) (W : World) (ctx : Context)
  (rr : RetrievalResult) :
  reaches_retrieval P (request ctx) →
  outcome_of (getPrerenderedPageResponse P W ctx) = Ok rr →
  JsString.truthy (rr_error rr) = false →
  no_cancel P (request ctx) rr →
  outcome_of (prerender P W ctx) = Ok (Body (rr_body rr))
  ∧ trace_of (prerender P W ctx)
    = app (read_events P (request ctx))
        (app (trace_of (getPrerenderedPageResponse P W ctx))
           (write_events P (request ctx) rr)).
Proof.
  intros Hreach Hret Herr Hhook. rewrite outcome_paths, trace_paths.
  rewrite (paths_after_miss P W ctx Hreach).
  unfold after_miss, finish, no_cancel, write_events in *. rewrite Hret.
  assert (match rr_error rr with
          | Some (String _ _ as msg) => Throw (mkError "Error" msg)
          | _ => Ok (Body (rr_body rr))
          end = Ok (Body (rr_body rr))) as Hfinal
    by (by destruct (rr_error rr) as [[|c msg]|]).
  destruct (_writeCache P) as [writeCache|].
  - destruct Hhook as [-> | ->]; cbn; by rewrite Hfinal.
  - cbn. by rewrite Hfinal, app_nil_r.
Qed.

Lemma retrieved_body_returned_witness :
  outcome_of (prerender (with_hooks (Some cache_empty) (Some storing_hook))
                backend_up (mkContext (crawler_get "/products/42")))
  = Ok (Body (Some "<html></html>"))
  ∧ trace_of (prerender (with_hooks (Some cache_empty) (Some storing_hook))
                backend_up (mkContext (crawler_get "/products/42")))
    = app [ConsoleInfo ["trying to resolve cache"];
           ResolveCacheCalled (crawler_get "/products/42")]
        (app (trace_of (getPrerenderedPageResponse
                          (with_hooks (Some cache_empty) (Some storing_hook))
                          backend_up (mkContext (crawler_get "/products/42"))))
           [WriteCacheCalled (crawler_get "/products/42") None
              (Some "<html></html>")]).
Proof.
  apply (retrieved_body_returned
           (with_hooks (Some cache_empty) (Some storing_hook)) backend_up
           (mkContext (crawler_get "/products/42"))
           {| rr_error := None; rr_body := Some "<html></html>" |}).
  - split; [vm_compute; reflexivity|].
    eexists. split; [reflexivity|]. left. reflexivity.
  - vm_compute. reflexivity.
  - reflexivity.
  - right. reflexivity.
Defined.

Lemma count_app (p : Event → bool) (t1 t2 : list Event) :
  count p (app t1 t2) = (count p t1 + count p t2)%nat.
Proof. unfold count. by rewrite List.filter_app, length_app. Qed.

(** The retriever calls no hook and not the continuation, and the backend
    at most once. *)
Lemma retrieval_events (P : Prerenderer) (W : World) (ctx : Context)
  (h : heap) :
  let t := (getPrerenderedPageResponse P W ctx h).1.2 in
  (∀ ev, ev ∈ t → is_read ev = false ∧ is_write ev = false
                  ∧ is_next ev = false)
  ∧ count is_read t = 0%nat ∧ count is_write t = 0%nat
  ∧ count is_next t = 0%nat ∧ (count is_fetch t ≤ 1)%nat.
Proof.
  destruct (retrieval_cases P W ctx h)
    as [(msg & Ht & _)|(u & init & _ & Hcase)]; cbv zeta in *.
  - rewrite Ht. split_and!; try (cbn; lia).
    intros ev Hin. repeat (apply elem_of_cons in Hin as [->|Hin]; [done|]).
    by apply elem_of_nil in Hin.
  - destruct (fetch W u init ≫= _); destruct Hcase as [Ht _]; rewrite Ht;
      (split_and!; try (cbn; lia));
      intros ev Hin;
      repeat (apply elem_of_cons in Hin as [->|Hin]; [done|]);
      by apply elem_of_nil in Hin.
Qed.

(** X19. Handling one request calls the read hook, the rendering backend,
    the write hook and the continuation at most once each: nothing is
    retried. *)
Theorem at_most_one_call_each (P : Prerenderer) (W : World) (ctx : Context) :
  (count is_read (trace_of (prerender P W ctx)) ≤ 1)%nat
  ∧ (count is_fetch (trace_of (prerender P W ctx)) ≤ 1)%nat
  ∧ (count is_write (trace_of (prerender P W ctx)) ≤ 1)%nat
  ∧ (count is_next (trace_of (prerender P W ctx)) ≤ 1)%nat.
Proof.
  rewrite trace_paths.
  destruct (retrieval_events P W ctx []) as (_ & Hread & Hwrite & Hnext & Hfetch).
  cbv zeta in *. fold (trace_of (getPrerenderedPageResponse P W ctx)) in *.
  unfold paths, after_miss, finish.
  destruct (shouldShowPrerenderedPage P (request ctx)) as [[|]|e];
    [|cbn; lia|cbn; lia].
  destruct (_resolveCache P) as [resolveCache|];
    [destruct (resolveCache (request ctx)) as [co|e]; [|cbn; lia];
     destruct (negb _ && _); [cbn; lia|]|];
    (destruct (outcome_of (getPrerenderedPageResponse P W ctx)) as [rr|e];
     [destruct (_writeCache P) as [writeCache|];
      [destruct (writeCache _ _ _) as [o|e];
       [destruct (cancelRender (default _ o))|]|]|];
     cbn [fst]; rewrite ?count_app, ?Hread, ?Hwrite, ?Hnext;
     cbn; lia).
Qed.

(** X20. The write hook only runs after the retriever, and is handed the
    request together with exactly the error and the body the retriever
    returned. *)
Theorem write_hook_gets_retrieval_result (P : Prerenderer) (W : World)
  (ctx : Context) (req : Request) (error body : option string) :
  WriteCacheCalled req error body ∈ trace_of (prerender P W ctx) →
  req = request ctx
  ∧ outcome_of (getPrerenderedPageResponse P W ctx)
    = Ok {| rr_error := error; rr_body := body |}.
Proof.
  rewrite trace_paths.
  destruct (retrieval_events P W ctx []) as (Hevents & _).
  cbv zeta in *. fold (trace_of (getPrerenderedPageResponse P W ctx)) in *.
  assert (∀ t, WriteCacheCalled req error body
               ∈ trace_of (getPrerenderedPageResponse P W ctx) → t) as Hnot.
  { intros t Hin. by destruct (Hevents _ Hin) as (_ & ? & _). }
  unfold paths, after_miss, finish.
  destruct (shouldShowPrerenderedPage P (request ctx)) as [[|]|e];
    [|intros Hin; which_call Hin..].
  destruct (_resolveCache P) as [resolveCache|];
    [destruct (resolveCache (request ctx)) as [co|e];
     [|intros Hin; which_call Hin];
     destruct (negb _ && _); [intros Hin; which_call Hin|]|];
    (destruct (outcome_of (getPrerenderedPageResponse P W ctx)) as [rr|e];
     [destruct (_writeCache P) as [writeCache|];
      [destruct (writeCache _ _ _) as [o|e];
       [destruct (cancelRender (default _ o))|]|]|];
     cbn [fst]; intros Hin;
     repeat (apply elem_of_app in Hin as [Hin|Hin]);
     try (by apply Hnot);
     repeat (apply elem_of_cons in Hin as [Hin|Hin]);
     try discriminate Hin; try (by apply elem_of_nil in Hin);
     try (by apply Hnot);
     injection Hin as -> -> ->; by destruct rr).
Qed.

Lemma write_hook_gets_retrieval_result_witness :
  crawler_get "/products/42"
  = request (mkContext (crawler_get "/products/42"))
  ∧ outcome_of (getPrerenderedPageResponse
                  (with_hooks None (Some storing_hook)) backend_down
                  (mkContext (crawler_get "/products/42")))
    = Ok {| rr_error := Some "error sending request: connection refused";
            rr_body := None |}.
Proof.
  apply (write_hook_gets_retrieval_result
           (with_hooks None (Some storing_hook)) backend_down
           (mkContext (crawler_get "/products/42"))).
  vm_compute.
  repeat (apply elem_of_cons; first [left; reflexivity|right]).
Defined.

(** ** Where failures come from *)

Lemma every_throw {A} (f : A → result bool) (l : list A) (e : Error) :
  every f l = Throw e → ∃ x, x ∈ l ∧ f x = Throw e.
Proof.
  induction l as [|y l IH]; intros H; [discriminate H|].
  cbn [every] in H. destruct (f y) as [[|]|e'] eqn:Hy;
    cbn [mbind result_bind] in H.
  - destruct (IH H) as (x & Hx & Hfx). exists x. split; [|done].
    apply elem_of_cons. by right.
  - discriminate H.
  - injection H as ->. exists y. split; [apply elem_of_cons; by left|done].
Qed.

Lemma some_throw {A} (f : A → result bool) (l : list A) (e : Error) :
  some f l = Throw e → ∃ x, x ∈ l ∧ f x = Throw e.
Proof.
  induction l as [|y l IH]; intros H; [discriminate H|].
  cbn [some] in H. destruct (f y) as [[|]|e'] eqn:Hy;
    cbn [mbind result_bind] in H.
  - discriminate H.
  - destruct (IH H) as (x & Hx & Hfx). exists x. split; [|done].
    apply elem_of_cons. by right.
  - injection H as ->. exists y. split; [apply elem_of_cons; by left|done].
Qed.

(** X21. The classifier only fails on a pattern: when it throws, the error
    is the one raised by compiling a pattern of the configured whitelist or
    blacklist. Without these lists it always answers. *)
Theorem classifier_fails_on_patterns_only (P : Prerenderer) (req : Request)
  (e : Error) :
  shouldShowPrerenderedPage P req = Throw e →
  ∃ p,
    RegExp.compile p = Throw e
    ∧ ((∃ whitelist, _whitelist P = Some whitelist ∧ p ∈ whitelist)
       ∨ (∃ blacklist, _blacklist P = Some blacklist ∧ p ∈ blacklist)).
Proof.
  classify.
  destruct (Headers.combined _ "user-agent") as [[|c ua]|];
    [discriminate| |discriminate].
  destruct (negb _ && negb _); [discriminate|].
  destruct (JsString.truthy (Headers.combined _ "x-prerender"));
    [discriminate|].
  destruct (existsb _ EXTENSIONS_TO_IGNORE); [discriminate|].
  destruct (_whitelist P) as [whitelist|] eqn:Hwl.
  - destruct (every _ whitelist) as [[|]|e'] eqn:Hevery;
      cbn [mbind result_bind]; [discriminate| |].
    + destruct (_blacklist P) as [blacklist|] eqn:Hbl;
        [|cbn [mbind result_bind]; discriminate].
      destruct (some _ blacklist) as [[|]|e'] eqn:Hsome;
        cbn [mbind result_bind]; [discriminate|discriminate|].
      intros [= ->]. apply some_throw in Hsome as (p & Hp & Hfp).
      exists p. split; [|right; eauto].
      destruct (RegExp.compile p); cbn [mbind result_bind] in Hfp;
        [|by injection Hfp as ->].
      destruct (JsString.truthy _); discriminate Hfp.
    + intros [= ->]. apply every_throw in Hevery as (p & Hp & Hfp).
      exists p. split; [|left; eauto].
      destruct (RegExp.compile p); cbn [mbind result_bind] in Hfp;
        [discriminate Hfp|by injection Hfp as ->].
  - cbn [mbind result_bind].
    destruct (_blacklist P) as [blacklist|] eqn:Hbl;
      [|cbn [mbind result_bind]; discriminate].
    destruct (some _ blacklist) as [[|]|e'] eqn:Hsome;
      cbn [mbind result_bind]; [discriminate|discriminate|].
    intros [= ->]. apply some_throw in Hsome as (p & Hp & Hfp).
    exists p. split; [|right; eauto].
    destruct (RegExp.compile p); cbn [mbind result_bind] in Hfp;
      [|by injection Hfp as ->].
    destruct (JsString.truthy _); discriminate Hfp.
Qed.

Lemma classifier_fails_on_patterns_only_witness :
  ∃ p,
    RegExp.compile p = Throw (SyntaxError "Invalid regular expression: a**")
    ∧ ((∃ whitelist,
          _whitelist (set_blackListed (inl "a**") defaultPrerenderer)
            = Some whitelist ∧ p ∈ whitelist)
       ∨ (∃ blacklist,
            _blacklist (set_blackListed (inl "a**") defaultPrerenderer)
              = Some blacklist ∧ p ∈ blacklist)).
Proof.
  apply (classifier_fails_on_patterns_only
           (set_blackListed (inl "a**") defaultPrerenderer)
           (crawler_get "/products/42")).
  vm_compute. reflexivity.
Defined.

Lemma forEach_throws {A} (l : list A) (f : A → M unit) (x : A) :
  x ∈ l →
  (∀ h, ∃ e, (f x h).2 = Throw e) →
  ∀ h, ∃ e, (forEach l f h).2 = Throw e.
Proof.
  intros Hx Hthrow. induction l as [|y l IH]; intros h;
    [by apply elem_of_nil in Hx|].
  cbn [forEach]. rewrite run_bind.
  apply elem_of_cons in Hx as [<-|Hx].
  - destruct (Hthrow h) as [e He]. destruct (f x h) as [[h1 t1] r].
    cbn in He. subst. by exists e.
  - destruct (f y h) as [[h1 t1] [[]|e]]; [|by exists e].
    destruct (IH Hx h1) as [e He].
    destruct (forEach l f h1) as [[h2 t2] r]. cbn in *. subst. by exists e.
Qed.

(** X22. With [forwardHeaders] on, an incoming header whose value is not a
    header name (a user-agent with a slash or a space, a media type, a URL)
    stops the retrieval before any call: the forwarding loop looks headers
    up by their value, the lookup throws, and the retriever returns the
    error. *)
Theorem forwarding_stops_on_non_token_value (P : Prerenderer) (W : World)
  (ctx : Context) (h : heap) (name v : string) :
  forwardHeaders P = true →
  (name, v) ∈ Headers.entries (headers (request ctx)) →
  Headers.is_name v = false →
  fetch_calls (getPrerenderedPageResponse P W ctx h).1.2 = []
  ∧ ∃ msg, (getPrerenderedPageResponse P W ctx h).2
           = Ok {| rr_error := Some msg; rr_body := None |}.
Proof.
  intros Hon Hin Hname.
  assert (fetch_calls (getPrerenderedPageResponse P W ctx h).1.2 = [])
    as Hcalls.
  { assert (Forall (λ _, False)
              (fetch_calls (getPrerenderedPageResponse P W ctx h).1.2))
      as Hnone; [|by destruct Hnone].
    unfold getPrerenderedPageResponse.
    apply (try_block_calls _ h (λ _ _, False)).
    cbv zeta. rewrite Hon. do 4 silent_step.
    match goal with |- call_post _ ((?loop ≫= ?k) ?h0) =>
      assert (silent loop) as Hsilent by auto 10 with silent;
      assert (∃ e, (loop h0).2 = Throw e) as [e He];
      [|rewrite run_bind; specialize (Hsilent h0);
        destruct (loop h0) as [[hloop tloop] r]; cbn in *; subst; left; eauto]
    end.
    apply (forEach_throws _ _ (name, v) Hin). intros hloop.
    assert (String.eqb v "host" = false) as ->.
    { apply String.eqb_neq. by intros ->. }
    rewrite run_bind. unfold lift, Headers.get. rewrite Hname. eauto. }
  split; [exact Hcalls|].
  destruct (retrieval_cases P W ctx h)
    as [(msg & _ & Hr)|(u & init & _ & Hcase)]; cbv zeta in *; [eauto|].
  exfalso. destruct (fetch W u init ≫= _); destruct Hcase as [Ht _];
    rewrite Ht in Hcalls; discriminate Hcalls.
Qed.

Lemma forwarding_stops_on_non_token_value_witness :
  fetch_calls (getPrerenderedPageResponse with_forwardHeaders backend_up
                 (mkContext (crawler_get "/products/42")) []).1.2 = []
  ∧ ∃ msg,
      (getPrerenderedPageResponse with_forwardHeaders backend_up
         (mkContext (crawler_get "/products/42")) []).2
      = Ok {| rr_error := Some msg; rr_body := None |}.
Proof.
  apply (forwarding_stops_on_non_token_value with_forwardHeaders backend_up
           (mkContext (crawler_get "/products/42")) [] "user-agent"
           "Mozilla/5.0 (compatible; Googlebot/2.1; +http://www.google.com/bot.html)");
    [reflexivity| |reflexivity].
  vm_compute. repeat (apply elem_of_cons; first [left; reflexivity|right]).
Defined.
